(** * Dropzone: the file-lifecycle manager of react-dropzone-uploader

    A shallow embedding of [src/src/Dropzone.js].  The component is a
    reactive program: every handler runs to completion on one thread, and
    the [async] functions ([handleFile], [generatePreview], [uploadFile])
    are cut at their [await]s.  The embedding therefore is a transition
    system: a [World] holds the module-level counter, the component's
    [_files] array, the store of [fileWithMeta] objects (which are shared
    and mutated in place, so they live in a heap and are named by
    reference), the suspended activations and the browser objects the
    code creates; [step] runs one task.

    Numbers.  JavaScript numbers are binary64.  The only arithmetic of
    the source is [(e.loaded * 100.0) / e.total]; the embedding keeps the
    quotient exact (a rational) and does not model its rounding.  The
    special values the code depends on ([NaN], [Infinity], zero) are
    modelled as JavaScript defines them. *)

From Stdlib Require Import QArith.
From stdpp Require Import gmap strings list fin_maps sorting.

Local Open Scope string_scope.
Local Open Scope nat_scope.

(** ** JavaScript values *)

Inductive jsnum :=
| Fin (q : Q)
| Infinity
| NaN.

Inductive jsval :=
| VUndefined
| VNum (x : jsnum)
| VStr (s : string)
| VIso (ms : N)   (* the string [new Date(ms).toISOString()] *)
| VUrl (u : nat). (* the string returned by the [u]-th [URL.createObjectURL] *)

Definition num_of_nat (n : nat) : jsnum := Fin (inject_Z (Z.of_nat n)).
Definition num_of_N (n : N) : jsnum := Fin (inject_Z (Z.of_N n)).

(** [x === y] on numbers: [NaN] differs from everything. *)
Definition num_eqb (x y : jsnum) : bool :=
  match x, y with
  | Fin a, Fin b => Qeq_bool a b
  | Infinity, Infinity => true
  | _, _ => false
  end.

(** [x === y]. *)
Definition strict_eqb (x y : jsval) : bool :=
  match x, y with
  | VUndefined, VUndefined => true
  | VNum a, VNum b => num_eqb a b
  | VStr a, VStr b => String.eqb a b
  | VIso a, VIso b => N.eqb a b
  | VUrl a, VUrl b => Nat.eqb a b
  | _, _ => false
  end.

(** Truthiness of a number: [0] and [NaN] are falsy. *)
Definition truthy_num (x : jsnum) : bool :=
  match x with
  | Fin q => negb (Qeq_bool q 0)
  | Infinity => true
  | NaN => false
  end.

(** [a / b] for two non-negative integers, as JavaScript divides:
    [0/0] is [NaN], [a/0] is [Infinity] for [a > 0]. *)
Definition js_div (a b : N) : jsnum :=
  if N.eqb b 0
  then (if N.eqb a 0 then NaN else Infinity)
  else Fin (Qred (Z.of_N a # Z.to_pos (Z.of_N b))).

(** [x <= y] on numbers, where both are numbers that compare. *)
Definition num_le (x y : jsnum) : Prop :=
  match x, y with
  | Fin a, Fin b => Qle a b
  | Fin _, Infinity => True
  | Infinity, Infinity => True
  | _, _ => False
  end.

(** ** Files, records, configuration *)

(** A browser [File]: [name], [size], [type], [lastModified]. *)
Record File := {
  f_name : string;
  f_size : N;
  f_type : string;
  f_lastModified : N }.

Abbreviation ref := nat (only parsing).   (* a reference to a [fileWithMeta] *)

(** A [fileWithMeta] object.  [meta] is an open JavaScript object, so it
    is a finite map from property names to values.  [xhr] holds the
    identity of the [XMLHttpRequest] stored by [uploadFile];
    [fw_triggerUpload] tells whether the [triggerUpload] property was
    set (the closure itself is the record's own, see [Stage]). *)
Record FileWithMeta := {
  fw_file : File;
  fw_meta : gmap string jsval;
  fw_xhr : option nat;
  fw_triggerUpload : bool }.

(** What [getUploadParams] resolves to:
    [{ fields, headers, meta, method, url }], every part optional. *)
Record Params := {
  p_fields : option (list (string * string));
  p_headers : option (list (string * string));
  p_meta : option (gmap string jsval);
  p_method : option string;
  p_url : option string }.

(** [this.props], as far as the handlers read them.  [accepts] is the
    predicate imported from [./utils] with the [accept] prop applied; its
    code is not part of this file and it is taken as a parameter.  The
    hooks that return nothing the code reads ([onCancel], [onRemove],
    [onRestart]) are present or absent; [onChangeStatus] returns the
    [meta] of its result, if any; [onUploadReady] returns whether its
    result asks [delayUpload === true]; the result of [getUploadParams]
    arrives later, as an event. *)
Record Props := {
  accepts : File → bool;
  minSizeBytes : N;
  maxSizeBytes : N;
  maxFiles : N;
  previewTypes : list string;
  getUploadParams : bool;
  onChangeStatus : option (FileWithMeta → jsval → option (gmap string jsval));
  onUploadReady : option (FileWithMeta → bool);
  onCancel : bool;
  onRemove : bool;
  onRestart : bool }.

(** ** Suspended activations and browser objects *)

Inductive MediaKind := Image | Audio | Video.

(** Where the [handleFile] activation of a record stands.
    - [Stopped]: it returned before building [triggerUpload]
      (rejection, size error) or died with a rejected promise;
    - [AwaitDecode k u ty]: [generatePreview] is suspended at
      [await fileCallbackToPromise(...)] for an element of kind [k] whose
      [src] is object URL [u]; [ty] is the captured [type];
    - [AwaitPreview]: [generatePreview] has returned, [handleFile] is
      suspended at [await this.generatePreview(fileWithMeta)];
    - [Gate t]: the closure [triggerUpload] exists and its captured
      variable [triggered] is [t]. *)
Inductive Stage :=
| Stopped
| AwaitDecode (k : MediaKind) (u : nat) (ty : string)
| AwaitPreview
| Gate (triggered : bool).

Record Cell := {
  fwm : FileWithMeta;
  pc : Stage }.

Inductive FormPart :=
| Field (v : string)
| Blob (f : File).

(** An [XMLHttpRequest] made by [uploadFile], with the record its two
    listeners close over. *)
Record XMLHttpRequest := {
  x_for : ref;
  x_method : string;
  x_url : string;
  x_headers : list (string * string);
  x_form : list (string * FormPart);
  x_sent : bool;
  x_aborted : bool }.

(** What the outside sees: hook calls, and exceptions that nothing
    catches ([Uncaught]: thrown out of the running task; [Unhandled]: a
    promise of an [async] function rejected with nobody awaiting it). *)
Inductive Obs :=
| ChangeStatus (r : ref) (snap : FileWithMeta)
| UploadReady (r : ref) (snap : FileWithMeta)
| GetUploadParams (r : ref) (snap : FileWithMeta)
| Cancelled (r : ref)
| Removed (r : ref)
| Restarted (r : ref)
| Uncaught
| Unhandled.

Record World := {
  id : nat;                      (* [let id = 0] *)
  _files : list ref;             (* [this._files] *)
  heap : list Cell;              (* every [fileWithMeta] created so far *)
  uploads : list (ref * bool);   (* [uploadFile] activations; [true]: awaiting [getUploadParams] *)
  xhrs : list XMLHttpRequest;    (* every [new XMLHttpRequest()] so far *)
  urls : list bool;              (* object URLs; [true]: not revoked *)
  log : list Obs;                (* newest first *)
  renders : nat }.               (* calls of [this.forceUpdate()] *)

Definition init : World :=
  {| id := 0; _files := []; heap := []; uploads := []; xhrs := [];
     urls := []; log := []; renders := 0 |}.

(** ** Assignments to the world *)

Definition set_id (n : nat) (w : World) : World :=
  {| id := n; _files := _files w; heap := heap w; uploads := uploads w;
     xhrs := xhrs w; urls := urls w; log := log w; renders := renders w |}.

Definition set_files (l : list ref) (w : World) : World :=
  {| id := id w; _files := l; heap := heap w; uploads := uploads w;
     xhrs := xhrs w; urls := urls w; log := log w; renders := renders w |}.

Definition set_heap (h : list Cell) (w : World) : World :=
  {| id := id w; _files := _files w; heap := h; uploads := uploads w;
     xhrs := xhrs w; urls := urls w; log := log w; renders := renders w |}.

Definition set_uploads (u : list (ref * bool)) (w : World) : World :=
  {| id := id w; _files := _files w; heap := heap w; uploads := u;
     xhrs := xhrs w; urls := urls w; log := log w; renders := renders w |}.

Definition set_xhrs (x : list XMLHttpRequest) (w : World) : World :=
  {| id := id w; _files := _files w; heap := heap w; uploads := uploads w;
     xhrs := x; urls := urls w; log := log w; renders := renders w |}.

Definition set_urls (u : list bool) (w : World) : World :=
  {| id := id w; _files := _files w; heap := heap w; uploads := uploads w;
     xhrs := xhrs w; urls := u; log := log w; renders := renders w |}.

Definition emit (o : Obs) (w : World) : World :=
  {| id := id w; _files := _files w; heap := heap w; uploads := uploads w;
     xhrs := xhrs w; urls := urls w; log := o :: log w; renders := renders w |}.

(** [this.forceUpdate()] *)
Definition forceUpdate (w : World) : World :=
  {| id := id w; _files := _files w; heap := heap w; uploads := uploads w;
     xhrs := xhrs w; urls := urls w; log := log w; renders := S (renders w) |}.

(** ** Reading and writing a [fileWithMeta] *)

Definition get (r : ref) (w : World) : option FileWithMeta :=
  fwm <$> heap w !! r.

Definition stage (r : ref) (w : World) : option Stage :=
  pc <$> heap w !! r.

(** [fileWithMeta.meta[k]]; a missing property reads [undefined]. *)
Definition prop (k : string) (o : FileWithMeta) : jsval :=
  default VUndefined (fw_meta o !! k).

Definition meta_of (r : ref) (k : string) (w : World) : jsval :=
  from_option (prop k) VUndefined (get r w).

Definition xhr_of (r : ref) (w : World) : option nat :=
  get r w ≫= fw_xhr.

Definition with_meta (m : gmap string jsval) (o : FileWithMeta) : FileWithMeta :=
  {| fw_file := fw_file o; fw_meta := m; fw_xhr := fw_xhr o;
     fw_triggerUpload := fw_triggerUpload o |}.

Definition with_xhr (x : nat) (o : FileWithMeta) : FileWithMeta :=
  {| fw_file := fw_file o; fw_meta := fw_meta o; fw_xhr := Some x;
     fw_triggerUpload := fw_triggerUpload o |}.

Definition with_triggerUpload (o : FileWithMeta) : FileWithMeta :=
  {| fw_file := fw_file o; fw_meta := fw_meta o; fw_xhr := fw_xhr o;
     fw_triggerUpload := true |}.

Definition on_fwm (f : FileWithMeta → FileWithMeta) (c : Cell) : Cell :=
  {| fwm := f (fwm c); pc := pc c |}.

Definition on_pc (s : Stage) (c : Cell) : Cell :=
  {| fwm := fwm c; pc := s |}.

Definition upd (r : ref) (f : FileWithMeta → FileWithMeta) (w : World) : World :=
  set_heap (alter (on_fwm f) r (heap w)) w.

Definition set_stage (r : ref) (s : Stage) (w : World) : World :=
  set_heap (alter (on_pc s) r (heap w)) w.

(** [fileWithMeta.meta[k] = v] *)
Definition assign (r : ref) (k : string) (v : jsval) (w : World) : World :=
  upd r (λ o, with_meta (<[k := v]> (fw_meta o)) o) w.

(** [fileWithMeta.meta = { ...fileWithMeta.meta, ...m }]: the properties
    of [m] win. *)
Definition spread (r : ref) (m : gmap string jsval) (w : World) : World :=
  upd r (λ o, with_meta (m ∪ fw_meta o) o) w.

Definition set_status (r : ref) (s : string) (w : World) : World :=
  assign r "status" (VStr s) w.

(** ** The handlers *)

(** [handleChangeStatus] *)
Definition handleChangeStatus (P : Props) (r : ref) (w : World) : World :=
  match onChangeStatus P, get r w with
  | Some hook, Some o =>
      let w := emit (ChangeStatus r o) w in
      match hook o (prop "status" o) with
      | Some meta => forceUpdate (spread r (delete "status" meta) w)
      | None => w
      end
  | _, _ => w
  end.

(** [uploadFile] up to [await getUploadParams(fileWithMeta)].  Without
    the prop the call of [undefined] throws inside the [async] function:
    its promise rejects and the caller goes on. *)
Definition uploadFile (P : Props) (r : ref) (w : World) : World :=
  if getUploadParams P
  then match get r w with
       | Some o => set_uploads (uploads w ++ [(r, true)]) (emit (GetUploadParams r o) w)
       | None => w
       end
  else emit Unhandled w.

(** A destructuring default, [{ x = d } = params || {}]. *)
Definition or_default {A} (d : A) (o : option A) : A := default d o.

(** [uploadFile] after the [await], for activation [k] and the value
    [params] the provider resolved to. *)
Definition uploadFile_resume (P : Props) (k : nat) (params : option Params) (w : World) : World :=
  match uploads w !! k with
  | Some (r, true) =>
      let w := set_uploads (<[k := (r, false)]> (uploads w)) w in
      let fields := or_default [] (params ≫= p_fields) in
      let headers := or_default [] (params ≫= p_headers) in
      let extraMeta := or_default ∅ (params ≫= p_meta) in
      let method := or_default "POST" (params ≫= p_method) in
      let url := or_default "" (params ≫= p_url) in
      let extraMeta := delete "status" extraMeta in
      if String.eqb url ""
      then forceUpdate (handleChangeStatus P r (set_status r "error_upload_params" w))
      else
        match get r w with
        | Some o =>
            let x := length (xhrs w) in
            let request :=
              {| x_for := r; x_method := method; x_url := url;
                 x_headers := ("X-Requested-With", "XMLHttpRequest") :: headers;
                 x_form := map (λ kv, (kv.1, Field kv.2)) fields ++ [("file", Blob (fw_file o))];
                 x_sent := true; x_aborted := false |} in
            let w := set_xhrs (xhrs w ++ [request]) w in
            let w := spread r extraMeta w in
            upd r (with_xhr x) w
        | None => w
        end
  | _ => w
  end.

(** The [progress] listener: [((e.loaded * 100.0) / e.total) || 100]. *)
Definition progress_percent (loaded total : N) : jsnum :=
  let q := js_div (loaded * 100) total in
  if truthy_num q then q else Fin 100.

Definition on_progress (x : nat) (loaded total : N) (w : World) : World :=
  match xhrs w !! x with
  | Some request =>
      forceUpdate (assign (x_for request) "percent" (VNum (progress_percent loaded total)) w)
  | None => w
  end.

(** The [readystatechange] listener, when the request reads
    [readyState] and [status]. *)
Definition on_readystatechange (P : Props) (x : nat) (readyState status : N) (w : World) : World :=
  match xhrs w !! x with
  | Some request =>
      let r := x_for request in
      if negb (N.eqb readyState 2) && negb (N.eqb readyState 4) then w
      else if N.eqb status 0
      then forceUpdate (handleChangeStatus P r (set_status r "aborted" w))
      else if N.ltb status 400
      then
        let w := assign r "percent" (VNum (Fin 100)) w in
        let w := if N.eqb readyState 2 then set_status r "headers_received" w else w in
        let w := if N.eqb readyState 4 then set_status r "done" w else w in
        forceUpdate (handleChangeStatus P r w)
      else forceUpdate (handleChangeStatus P r (set_status r "error_upload" w))
  | None => w
  end.

(** The closure [triggerUpload] of record [r]. *)
Definition triggerUpload (P : Props) (r : ref) (w : World) : World :=
  match stage r w with
  | Some (Gate false) =>
      let w := set_stage r (Gate true) w in
      let w := if getUploadParams P
               then set_status r "uploading" (uploadFile P r w)
               else set_status r "done" w in
      forceUpdate (handleChangeStatus P r w)
  | _ => w
  end.

(** [xhr.abort()] *)
Definition abort (x : nat) (w : World) : World :=
  set_xhrs (alter (λ q, {| x_for := x_for q; x_method := x_method q; x_url := x_url q;
                           x_headers := x_headers q; x_form := x_form q;
                           x_sent := x_sent q; x_aborted := true |}) x (xhrs w)) w.

(** [handleCancel] *)
Definition handleCancel (P : Props) (r : ref) (w : World) : World :=
  match xhr_of r w with
  | None => w
  | Some x =>
      let w := abort x w in
      if onCancel P then emit (Cancelled r) w else w
  end.

(** [this._files.findIndex(f => f.meta.id === fileWithMeta.meta.id)] *)
Fixpoint findIndex (w : World) (v : jsval) (l : list ref) : option nat :=
  match l with
  | [] => None
  | f :: l' =>
      if strict_eqb (meta_of f "id" w) v then Some 0
      else S <$> findIndex w v l'
  end.

(** [handleRemove] *)
Definition handleRemove (P : Props) (r : ref) (w : World) : World :=
  match findIndex w (meta_of r "id" w) (_files w) with
  | Some index =>
      let w := if onRemove P then emit (Removed r) w else w in
      forceUpdate (set_files (delete index (_files w)) w)
  | None => w
  end.

(** [handleRestart] *)
Definition handleRestart (P : Props) (r : ref) (w : World) : World :=
  let w := uploadFile P r w in
  let w := set_status r "uploading" w in
  let w := handleChangeStatus P r w in
  let w := forceUpdate w in
  if onRestart P then emit (Restarted r) w else w.

(** [componentWillUnmount]: the loop over [this._files].  Reading
    [abort] of an [xhr] that is [undefined] throws and ends the loop. *)
Fixpoint componentWillUnmount_from (l : list ref) (w : World) : World :=
  match l with
  | [] => w
  | f :: l' =>
      if strict_eqb (meta_of f "status" w) (VStr "uploading")
      then match xhr_of f w with
           | Some x => componentWillUnmount_from l' (abort x w)
           | None => emit Uncaught w
           end
      else componentWillUnmount_from l' w
  end.

Definition componentWillUnmount (w : World) : World :=
  componentWillUnmount_from (_files w) w.

(** [URL.createObjectURL(file)] and [URL.revokeObjectURL(objectUrl)] *)
Definition createObjectURL (w : World) : World := set_urls (urls w ++ [true]) w.
Definition revokeObjectURL (u : nat) (w : World) : World := set_urls (<[u := false]> (urls w)) w.

Definition includes (l : list string) (s : string) : bool := existsb (String.eqb s) l.

(** [generatePreview], in the order of its statements.  The three [if]s
    of its [try] block follow one another; each suspends at its [await]
    and the next one runs when the element's callback has fired. *)
Definition generatePreview_end (r : ref) (u : nat) (w : World) : World :=
  let w := revokeObjectURL u w in
  let w := forceUpdate w in
  set_stage r AwaitPreview w.

Definition generatePreview_video (P : Props) (r : ref) (u : nat) (ty : string) (w : World) : World :=
  if String.prefix "video/" ty && includes (previewTypes P) "video"
  then set_stage r (AwaitDecode Video u ty) w
  else generatePreview_end r u w.

Definition generatePreview_audio (P : Props) (r : ref) (u : nat) (ty : string) (w : World) : World :=
  if String.prefix "audio/" ty && includes (previewTypes P) "audio"
  then set_stage r (AwaitDecode Audio u ty) w
  else generatePreview_video P r u ty w.

Definition generatePreview_image (P : Props) (r : ref) (u : nat) (ty : string) (w : World) : World :=
  if String.prefix "image/" ty && includes (previewTypes P) "image"
  then set_stage r (AwaitDecode Image u ty) (assign r "previewUrl" (VUrl u) w)
  else generatePreview_audio P r u ty w.

Definition generatePreview (P : Props) (r : ref) (w : World) : World :=
  match meta_of r "type" w with
  | VStr ty =>
      let isImage := String.prefix "image/" ty in
      let isAudio := String.prefix "audio/" ty in
      let isVideo := String.prefix "video/" ty in
      if negb isImage && negb isAudio && negb isVideo
      then set_stage r AwaitPreview w
      else
        let objectUrl := length (urls w) in
        generatePreview_image P r objectUrl ty (createObjectURL w)
  | _ => set_stage r Stopped (emit Unhandled w)   (* [type.startsWith] is not a function *)
  end.

(** What the decoded element shows when its callback fires:
    [width]/[height] of an image, [duration] of an audio element,
    [duration], [videoWidth], [videoHeight] of a video element. *)
Record Decoded := {
  d_width : jsval;
  d_height : jsval;
  d_duration : jsval }.

(** [onload] / [onloadedmetadata] fires on the element of record [r]:
    the promise of [fileCallbackToPromise] resolves and
    [generatePreview] goes on after its [await]. *)
Definition on_decoded (P : Props) (r : ref) (d : Decoded) (w : World) : World :=
  match stage r w with
  | Some (AwaitDecode Image u ty) =>
      let w := assign r "width" (d_width d) w in
      let w := assign r "height" (d_height d) w in
      generatePreview_audio P r u ty w
  | Some (AwaitDecode Audio u ty) =>
      let w := assign r "duration" (d_duration d) w in
      generatePreview_video P r u ty w
  | Some (AwaitDecode Video u ty) =>
      let w := assign r "duration" (d_duration d) w in
      let w := assign r "videoWidth" (d_width d) w in
      let w := assign r "videoHeight" (d_height d) w in
      generatePreview_end r u w
  | _ => w
  end.

(** [handleFile] after [await this.generatePreview(fileWithMeta)]. *)
Definition handleFile_resume (P : Props) (r : ref) (w : World) : World :=
  match stage r w with
  | Some AwaitPreview =>
      let w := set_stage r (Gate false) w in
      match onUploadReady P with
      | Some hook =>
          let w := upd r with_triggerUpload w in
          match get r w with
          | Some o =>
              let w := emit (UploadReady r o) w in
              if hook o then w else triggerUpload P r w
          | None => w
          end
      | None => triggerUpload P r w
      end
  | _ => w
  end.

(** The object literal [{ file, meta: { name, size, type,
    lastModifiedDate, uploadedDate, percent: 0, id } }]; [now] is the
    clock read by [new Date()]. *)
Definition new_fileWithMeta (file : File) (now : N) (id : nat) : FileWithMeta :=
  let lastModifiedDate :=
    if N.eqb (f_lastModified file) 0 then VNum (num_of_N 0) else VIso (f_lastModified file) in
  {| fw_file := file;
     fw_meta :=
       <["name" := VStr (f_name file)]>
       (<["size" := VNum (num_of_N (f_size file))]>
       (<["type" := VStr (f_type file)]>
       (<["lastModifiedDate" := lastModifiedDate]>
       (<["uploadedDate" := VIso now]>
       (<["percent" := VNum (num_of_nat 0)]>
       (<["id" := VNum (num_of_nat id)]> ∅))))));
     fw_xhr := None;
     fw_triggerUpload := false |}.

(** The two early exits of [handleFile]. *)
Definition rejected_file_type (P : Props) (file : File) : bool :=
  negb (String.eqb (f_type file) "application/x-moz-file") && negb (accepts P file).

Definition rejected_max_files (P : Props) (w : World) : bool :=
  (maxFiles P <=? N.of_nat (length (_files w)))%N.

(** [handleFile] up to its first suspension. *)
Definition handleFile (P : Props) (file : File) (now : N) (w : World) : World :=
  let r := length (heap w) in
  let w := set_heap (heap w ++ [{| fwm := new_fileWithMeta file now (id w); pc := Stopped |}]) w in
  if rejected_file_type P file
  then handleChangeStatus P r (set_status r "rejected_file_type" w)
  else if rejected_max_files P w
  then handleChangeStatus P r (set_status r "rejected_max_files" w)
  else
    let w := set_status r "preparing" w in
    let w := set_files (_files w ++ [r]) w in
    let w := handleChangeStatus P r w in
    let w := forceUpdate w in
    let w := set_id (id w + 1) w in
    if (f_size file <? minSizeBytes P)%N || (maxSizeBytes P <? f_size file)%N
    then forceUpdate (handleChangeStatus P r (set_status r "error_file_size" w))
    else generatePreview P r w.

(** ** The transition system *)

(** One task of the event loop. *)
Inductive Event :=
| Accept (file : File) (now : N)                 (* [handleFile(file)] is called *)
| DecodeLoaded (r : ref) (d : Decoded)           (* [onload] / [onloadedmetadata] fires *)
| DecodeFailed (r : ref)                         (* [onerror] fires on the element *)
| PreviewDone (r : ref)                          (* the awaited [generatePreview] promise is delivered *)
| TriggerUpload (r : ref)                        (* outside code calls [fileWithMeta.triggerUpload()] *)
| ParamsResolved (k : nat) (params : option Params) (* [getUploadParams] resolves *)
| ParamsRejected (k : nat)                       (* [getUploadParams] throws or rejects *)
| Progress (x : nat) (loaded total : N)          (* [progress] on [xhr.upload] *)
| ReadyStateChange (x : nat) (readyState status : N)
| Cancel (r : ref)
| Remove (r : ref)
| Restart (r : ref)
| Unmount.

Definition step (P : Props) (w : World) (e : Event) : World :=
  match e with
  | Accept file now => handleFile P file now w
  | DecodeLoaded r d => on_decoded P r d w
  | DecodeFailed r => w   (* the code sets no [onerror]: nothing runs *)
  | PreviewDone r => handleFile_resume P r w
  | TriggerUpload r =>
      match get r w with
      | Some o => if fw_triggerUpload o then triggerUpload P r w else w
      | None => w
      end
  | ParamsResolved k params => uploadFile_resume P k params w
  | ParamsRejected k =>
      match uploads w !! k with
      | Some (r, true) => emit Unhandled (set_uploads (<[k := (r, false)]> (uploads w)) w)
      | _ => w
      end
  | Progress x loaded total => on_progress x loaded total w
  | ReadyStateChange x readyState status => on_readystatechange P x readyState status w
  | Cancel r => handleCancel P r w
  | Remove r => handleRemove P r w
  | Restart r => handleRestart P r w
  | Unmount => componentWillUnmount w
  end.

Definition run (P : Props) (w : World) (es : list Event) : World :=
  foldl (step P) w es.

(** ** Concrete configurations and inputs used by the examples *)

Module Scenario.

(** No provider, no hooks: [minSizeBytes=0, maxSizeBytes=1000, maxFiles=1]. *)
Definition plain : Props :=
  {| accepts := λ _, true; minSizeBytes := 0; maxSizeBytes := 1000; maxFiles := 1;
     previewTypes := ["image"; "audio"; "video"]; getUploadParams := false;
     onChangeStatus := None; onUploadReady := None;
     onCancel := false; onRemove := false; onRestart := false |}.

(** A provider is configured, room for two files. *)
Definition uploading : Props :=
  {| accepts := λ _, true; minSizeBytes := 0; maxSizeBytes := 1000; maxFiles := 2;
     previewTypes := ["image"; "audio"; "video"]; getUploadParams := true;
     onChangeStatus := None; onUploadReady := None;
     onCancel := false; onRemove := false; onRestart := false |}.

(** [uploading] with an [onChangeStatus] that always answers [{ meta: m }]. *)
Definition answering (m : gmap string jsval) : Props :=
  {| accepts := λ _, true; minSizeBytes := 0; maxSizeBytes := 1000; maxFiles := 2;
     previewTypes := ["image"; "audio"; "video"]; getUploadParams := true;
     onChangeStatus := Some (λ _ _, Some m); onUploadReady := None;
     onCancel := false; onRemove := false; onRestart := false |}.

(** Only [text/*] files are accepted, at most one file. *)
Definition picky : Props :=
  {| accepts := λ f, String.prefix "text/" (f_type f);
     minSizeBytes := 0; maxSizeBytes := 1000; maxFiles := 1;
     previewTypes := ["image"; "audio"; "video"]; getUploadParams := false;
     onChangeStatus := Some (λ _ _, None); onUploadReady := None;
     onCancel := false; onRemove := false; onRestart := false |}.

Definition a_png : File :=
  {| f_name := "a.png"; f_size := 500; f_type := "image/png"; f_lastModified := 7 |}.
Definition a_txt : File :=
  {| f_name := "a.txt"; f_size := 500; f_type := "text/plain"; f_lastModified := 7 |}.
Definition a_mp3 : File :=
  {| f_name := "a.mp3"; f_size := 500; f_type := "audio/mpeg"; f_lastModified := 7 |}.
Definition b_txt : File :=
  {| f_name := "b.txt"; f_size := 20; f_type := "text/plain"; f_lastModified := 9 |}.

Definition decoded : Decoded :=
  {| d_width := VNum (num_of_nat 10); d_height := VNum (num_of_nat 20);
     d_duration := VUndefined |}.

(** [{ url: 'https://host/upload' }] *)
Definition to_host : Params :=
  {| p_fields := None; p_headers := None; p_meta := None; p_method := None;
     p_url := Some "https://host/upload" |}.

(** [{ status: 'done', tag: 'x' }] *)
Definition done_and_tag : gmap string jsval :=
  <["status" := VStr "done"]> (<["tag" := VStr "x"]> ∅).

(** [{ url: 'https://host/upload', meta: { status: 'done', tag: 'x' } }] *)
Definition to_host_meta : Params :=
  {| p_fields := None; p_headers := None;
     p_meta := Some done_and_tag;
     p_method := None; p_url := Some "https://host/upload" |}.

(** [{ percent: 50 }] and [{ id: 7 }], as answers of [onChangeStatus]. *)
Definition half : gmap string jsval := <["percent" := VNum (num_of_nat 50)]> ∅.
Definition seven : gmap string jsval := <["id" := VNum (num_of_nat 7)]> ∅.

End Scenario.

(** ** Properties read off a world *)

(** Exceptions thrown out of a task so far. *)
Definition is_uncaught (o : Obs) : bool :=
  match o with Uncaught => true | _ => false end.

Definition uncaught (w : World) : nat :=
  length (List.filter is_uncaught (log w)).

(** Every handle stored on a record is a request that was made. *)
Definition handles_exist (w : World) : Prop :=
  ∀ r x, xhr_of r w = Some x → x < length (xhrs w).

(** Whether [handleFile] leaves by one of its two early exits. *)
Definition rejected (P : Props) (w : World) (file : File) : bool :=
  rejected_file_type P file || rejected_max_files P w.

(** Whether a task pushes a record on [this._files]. *)
Definition retains (P : Props) (w : World) (e : Event) : bool :=
  match e with
  | Accept file _ => negb (rejected P w file)
  | _ => false
  end.

(** How many tasks of a run push a record. *)
Fixpoint retained_count (P : Props) (w : World) (es : list Event) : nat :=
  match es with
  | [] => 0
  | e :: es' => (if retains P w e then 1 else 0) + retained_count P (step P w e) es'
  end.

(** The calls of the status hook so far, newest first: the record, and
    its [meta.status] and [meta.id] at the call. *)
Definition notified (w : World) : list (nat * jsval * jsval) :=
  omap (λ o, match o with
             | ChangeStatus r snap => Some (r, prop "status" snap, prop "id" snap)
             | _ => None
             end) (log w).

(** Metadata from outside that leaves [id] alone: what the status hook
    returns, and what the provider resolves to. *)
Definition hook_keeps_id (P : Props) : Prop :=
  ∀ hook o s m, onChangeStatus P = Some hook → hook o s = Some m → m !! "id" = None.

Definition event_keeps_id (e : Event) : Prop :=
  match e with
  | ParamsResolved _ (Some params) => ∀ m, p_meta params = Some m → m !! "id" = None
  | _ => True
  end.

(** The worlds a run goes through, the first one included. *)
Fixpoint history (P : Props) (w : World) (es : list Event) : list World :=
  w :: match es with
       | [] => []
       | e :: es' => history P (step P w e) es'
       end.

(** The records of [this._files], each with its [meta.id]. *)
Definition retained_ids (w : World) : list (nat * jsval) :=
  (λ r, (r, meta_of r "id" w)) <$> _files w.

(** What the proof of uniqueness carries along a run: [H] lists the
    records retained so far with the counter value each was made with;
    every one of them still has that [meta.id], below the counter, no
    two of them share it, and [this._files] holds listed records only. *)
Definition registry (H : list (nat * nat)) (w : World) : Prop :=
  (∀ r n, (r, n) ∈ H → meta_of r "id" w = VNum (num_of_nat n) ∧ n < id w)
  ∧ (∀ r n r' n', (r, n) ∈ H → (r', n') ∈ H → r ≠ r' → n ≠ n')
  ∧ (∀ r, r ∈ _files w → ∃ n, (r, n) ∈ H).

(** A status hook whose answers leave [percent] alone. *)
Definition hook_keeps_percent (P : Props) : Prop :=
  ∀ hook o s m, onChangeStatus P = Some hook → hook o s = Some m → m !! "percent" = None.

(** ** The remaining handlers and the invariants of a run *)

(** [handleFiles]: [files.forEach(this.handleFile)].  Every file comes
    with the clock its call of [new Date()] reads. *)
Definition handleFiles (P : Props) (files : list (File * N)) (w : World) : World :=
  foldl (λ w fn, handleFile P fn.1 fn.2 w) w files.

(** The collection has room: [this._files.length <= maxFiles]. *)
Definition within_capacity (P : Props) (w : World) : Prop :=
  (N.of_nat (length (_files w)) ≤ maxFiles P)%N.

(** The collection lists records that exist, in the order they were
    made. *)
Definition in_insertion_order (w : World) : Prop :=
  StronglySorted lt (_files w) ∧ Forall (λ r, r < length (heap w)) (_files w).

(** What [this._files] is after a task, read off the handlers. *)
Definition files_after (P : Props) (w : World) (e : Event) : list nat :=
  if retains P w e then _files w ++ [length (heap w)]
  else match e with
       | Remove r =>
           match findIndex w (meta_of r "id" w) (_files w) with
           | Some index => delete index (_files w)
           | None => _files w
           end
       | _ => _files w
       end.

(** The files [handleFile] was called with along a run, in call order. *)
Definition accepted_files (es : list Event) : list File :=
  omap (λ e, match e with Accept file _ => Some file | _ => None end) es.

(** Two states of one request: nothing but [abort()] has happened to
    it in between. *)
Definition same_request (q q' : XMLHttpRequest) : Prop :=
  x_for q' = x_for q ∧ x_method q' = x_method q ∧ x_url q' = x_url q
  ∧ x_headers q' = x_headers q ∧ x_form q' = x_form q ∧ x_sent q' = x_sent q
  ∧ (x_aborted q = true → x_aborted q' = true).

(** Every record keeps its [file] from one world to the other. *)
Definition keeps_files (w w' : World) : Prop :=
  ∀ r o, get r w = Some o → ∃ o', get r w' = Some o' ∧ fw_file o' = fw_file o.

(** What holds of the requests of a reachable world: each is sent, to a
    non-empty url, with the fixed header first and the record's file as
    the last part of its form; its record holds a handle, and that
    handle is this request or a later one. *)
Definition requests_wf (w : World) : Prop :=
  ∀ x q, xhrs w !! x = Some q →
    x_sent q = true ∧ x_url q ≠ ""
    ∧ head (x_headers q) = Some ("X-Requested-With", "XMLHttpRequest")
    ∧ (∃ o, get (x_for q) w = Some o ∧ last (x_form q) = Some ("file", Blob (fw_file o)))
    ∧ (∃ x', xhr_of (x_for q) w = Some x' ∧ x ≤ x').

(** The handle a record holds is a request made for that record. *)
Definition handles_bound (w : World) : Prop :=
  ∀ r x, xhr_of r w = Some x → ∃ q, xhrs w !! x = Some q ∧ x_for q = r.

(** A request after [abort()]. *)
Definition aborted (q : XMLHttpRequest) : XMLHttpRequest :=
  {| x_for := x_for q; x_method := x_method q; x_url := x_url q;
     x_headers := x_headers q; x_form := x_form q;
     x_sent := x_sent q; x_aborted := true |}.

(** Whether request [x] is the [xhr] of a record of [l] whose status is
    ['uploading']. *)
Definition uploading_handle (w : World) (l : list nat) (x : nat) : bool :=
  existsb (λ r, strict_eqb (meta_of r "status" w) (VStr "uploading")
                && bool_decide (xhr_of r w = Some x)) l.

(** The status a [readystatechange] event leaves, by [readyState] (2 or
    4) and status code. *)
Definition status_after (readyState status : N) : string :=
  if N.eqb status 0 then "aborted"
  else if N.ltb status 400
       then (if N.eqb readyState 4 then "done" else "headers_received")
       else "error_upload".

(** [size < minSizeBytes || size > maxSizeBytes] *)
Definition size_out_of_bounds (P : Props) (file : File) : bool :=
  (f_size file <? minSizeBytes P)%N || (maxSizeBytes P <? f_size file)%N.

(** The [uploadFile] activations started so far for record [r]. *)
Definition activations (r : nat) (w : World) : nat :=
  length (filter (λ r', r' = r) (uploads w).*1).

(** Every [uploadFile] activation belongs to a record that exists. *)
Definition uploads_valid (w : World) : Prop :=
  ∀ r, r ∈ (uploads w).*1 → r < length (heap w).

(** Every object URL that is not revoked is the [src] of an element
    some record is still waiting for. *)
Definition urls_accounted (w : World) : Prop :=
  ∀ u, urls w !! u = Some true → ∃ r k ty, stage r w = Some (AwaitDecode k u ty).

(** The status strings the handlers assign. *)
Definition statuses : list string :=
  ["rejected_file_type"; "rejected_max_files"; "preparing"; "error_file_size";
   "uploading"; "done"; "error_upload_params"; "aborted"; "headers_received";
   "error_upload"].

Definition status_known (o : FileWithMeta) : Prop :=
  ∃ s, s ∈ statuses ∧ prop "status" o = VStr s.

(** From [w] to [w'] every record either has one of the [statuses] or
    has the status it had. *)
Definition status_owned (w w' : World) : Prop :=
  ∀ r o', get r w' = Some o' →
    status_known o' ∨ ∃ o, get r w = Some o ∧ prop "status" o' = prop "status" o.

(** ** The drag handlers *)

(** [this.state.active], [this._dragTimeoutId] and the timers of the
    page: [setTimeout] returns the index of a new entry, which is [true]
    until the timer fires or is cleared.  The event's [preventDefault]
    and [stopPropagation] act on the browser, not on the component. *)
Record Drag := {
  active : bool;
  _dragTimeoutId : option nat;
  timers : list bool;
}.

Definition drag_init : Drag :=
  {| active := false; _dragTimeoutId := None; timers := [] |}.

(** [clearTimeout(id)]; [clearTimeout(undefined)] does nothing. *)
Definition clearTimeout (k : option nat) (ts : list bool) : list bool :=
  match k with
  | Some k => <[k := false]> ts
  | None => ts
  end.

Definition handleDragEnter (d : Drag) : Drag :=
  {| active := true; _dragTimeoutId := _dragTimeoutId d; timers := timers d |}.

Definition handleDragOver (d : Drag) : Drag :=
  {| active := true; _dragTimeoutId := _dragTimeoutId d;
     timers := clearTimeout (_dragTimeoutId d) (timers d) |}.

Definition handleDragLeave (d : Drag) : Drag :=
  {| active := active d; _dragTimeoutId := Some (length (timers d));
     timers := timers d ++ [true] |}.

(** The timer's callback, [() => this.setState({ active: false })], run
    by the page when timer [k] is due and was not cleared. *)
Definition timeout (k : nat) (d : Drag) : Drag :=
  match timers d !! k with
  | Some true =>
      {| active := false; _dragTimeoutId := _dragTimeoutId d;
         timers := <[k := false]> (timers d) |}
  | _ => d
  end.

Definition handleDrop (P : Props) (files : list (File * N)) (c : Drag * World)
  : Drag * World :=
  ({| active := false; _dragTimeoutId := _dragTimeoutId c.1; timers := timers c.1 |},
   handleFiles P files c.2).

Inductive DragEvent :=
| DragEnter
| DragOver
| DragLeave
| Drop (files : list (File * N))
| Timeout (k : nat)               (* timer [k] is due *)
| Other (e : Event).              (* any event of the upload pipeline *)

Definition drag_step (P : Props) (c : Drag * World) (e : DragEvent) : Drag * World :=
  match e with
  | DragEnter => (handleDragEnter c.1, c.2)
  | DragOver => (handleDragOver c.1, c.2)
  | DragLeave => (handleDragLeave c.1, c.2)
  | Drop files => handleDrop P files c
  | Timeout k => (timeout k c.1, c.2)
  | Other e => (c.1, step P c.2 e)
  end.

Definition drag_run (P : Props) (c : Drag * World) (es : list DragEvent) : Drag * World :=
  foldl (drag_step P) c es.

(** Every [dragleave] is followed at once by a [dragover], as when the
    pointer moves over the children of the dropzone. *)
Fixpoint debounced (es : list DragEvent) : bool :=
  match es with
  | [] => true
  | DragLeave :: es' =>
      match es' with
      | DragOver :: es'' => debounced es''
      | _ => false
      end
  | _ :: es' => debounced es'
  end.

Definition is_drop (e : DragEvent) : bool :=
  match e with Drop _ => true | _ => false end.

Definition is_hover (e : DragEvent) : bool :=
  match e with DragEnter | DragOver => true | _ => false end.

(** * Theorems *)

(** ** Reading the store after a write *)

Lemma get_upd r r' f w :
  get r (upd r' f w) = if decide (r = r') then f <$> get r w else get r w.
Proof.
  unfold get, upd; simpl. case_decide as E.
  - subst. rewrite list_lookup_alter_eq. by destruct (heap w !! r').
  - by rewrite list_lookup_alter_ne.
Qed.

Lemma get_set_stage r r' s w : get r (set_stage r' s w) = get r w.
Proof.
  unfold get, set_stage; simpl. destruct (decide (r = r')) as [->|E].
  - rewrite list_lookup_alter_eq. by destruct (heap w !! r').
  - by rewrite list_lookup_alter_ne.
Qed.

Lemma stage_upd r r' f w : stage r (upd r' f w) = stage r w.
Proof.
  unfold stage, upd; simpl. destruct (decide (r = r')) as [->|E].
  - rewrite list_lookup_alter_eq. by destruct (heap w !! r').
  - by rewrite list_lookup_alter_ne.
Qed.

Lemma stage_set_stage r r' s w :
  stage r (set_stage r' s w) = if decide (r = r') then (λ _, s) <$> stage r w else stage r w.
Proof.
  unfold stage, set_stage; simpl. case_decide as E.
  - subst. rewrite list_lookup_alter_eq. by destruct (heap w !! r').
  - by rewrite list_lookup_alter_ne.
Qed.

Lemma meta_of_assign r r' k k' v w :
  meta_of r k (assign r' k' v w) =
  if decide (r = r' ∧ k = k' ∧ is_Some (get r w)) then v else meta_of r k w.
Proof.
  unfold meta_of, assign. rewrite get_upd.
  destruct (decide (r = r')) as [->|E]; last first.
  { rewrite decide_False; [done | by intros (? & ?)]. }
  destruct (get r' w) as [o|] eqn:G; simpl; last first.
  { rewrite decide_False; [done | intros (_ & _ & [? ?]); done]. }
  unfold prop; simpl. destruct (decide (k = k')) as [->|K].
  - rewrite lookup_insert_eq. rewrite decide_True; [done | eauto].
  - rewrite lookup_insert_ne by done. rewrite decide_False; [done | by intros (? & ? & ?)].
Qed.

Lemma meta_of_spread r r' k m w :
  meta_of r k (spread r' m w) =
  if decide (r = r' ∧ is_Some (get r w))
  then default (meta_of r k w) (m !! k) else meta_of r k w.
Proof.
  unfold meta_of, spread. rewrite get_upd.
  destruct (decide (r = r')) as [->|E]; last first.
  { rewrite decide_False; [done | by intros (? & ?)]. }
  destruct (get r' w) as [o|] eqn:G; simpl; last first.
  { rewrite decide_False; [done | intros (_ & [? ?]); done]. }
  rewrite decide_True by eauto. unfold prop; simpl.
  rewrite lookup_union. by destruct (m !! k), (fw_meta o !! k).
Qed.

Lemma meta_of_set_stage r k r' s w : meta_of r k (set_stage r' s w) = meta_of r k w.
Proof. unfold meta_of. by rewrite get_set_stage. Qed.

Lemma xhr_of_upd_meta r r' (g : FileWithMeta → gmap string jsval) w :
  xhr_of r (upd r' (λ o, with_meta (g o) o) w) = xhr_of r w.
Proof.
  unfold xhr_of. rewrite get_upd. case_decide; [|done].
  by destruct (get r w).
Qed.

Lemma xhr_of_assign r r' k v w : xhr_of r (assign r' k v w) = xhr_of r w.
Proof. apply xhr_of_upd_meta. Qed.

Lemma xhr_of_spread r r' m w : xhr_of r (spread r' m w) = xhr_of r w.
Proof. apply xhr_of_upd_meta. Qed.

Lemma xhr_of_set_stage r r' s w : xhr_of r (set_stage r' s w) = xhr_of r w.
Proof. unfold xhr_of. by rewrite get_set_stage. Qed.

Lemma is_Some_get_assign r r' k v w : is_Some (get r (assign r' k v w)) ↔ is_Some (get r w).
Proof.
  unfold assign. rewrite get_upd. case_decide; [|done].
  by rewrite fmap_is_Some.
Qed.

Lemma is_Some_get_stage r w : is_Some (get r w) ↔ is_Some (stage r w).
Proof. unfold get, stage. by rewrite !fmap_is_Some. Qed.

Lemma handleChangeStatus_no_hook P r w :
  onChangeStatus P = None → handleChangeStatus P r w = w.
Proof. intros H. unfold handleChangeStatus. by rewrite H. Qed.

(** ** What a task leaves alone

    The store of records is written by [upd], [set_stage] and the
    allocation in [handleFile] only; the lemmas of this section are
    collected in the rewriting base [store]. *)

Lemma get_emit r o w : get r (emit o w) = get r w.
Proof. done. Qed.
Lemma get_forceUpdate r w : get r (forceUpdate w) = get r w.
Proof. done. Qed.
Lemma get_set_id r n w : get r (set_id n w) = get r w.
Proof. done. Qed.
Lemma get_set_files r l w : get r (set_files l w) = get r w.
Proof. done. Qed.
Lemma get_set_uploads r u w : get r (set_uploads u w) = get r w.
Proof. done. Qed.
Lemma get_set_xhrs r x w : get r (set_xhrs x w) = get r w.
Proof. done. Qed.
Lemma get_set_urls r u w : get r (set_urls u w) = get r w.
Proof. done. Qed.
Lemma get_abort r x w : get r (abort x w) = get r w.
Proof. done. Qed.
Lemma get_createObjectURL r w : get r (createObjectURL w) = get r w.
Proof. done. Qed.
Lemma get_revokeObjectURL r u w : get r (revokeObjectURL u w) = get r w.
Proof. done. Qed.
Lemma stage_emit r o w : stage r (emit o w) = stage r w.
Proof. done. Qed.
Lemma stage_forceUpdate r w : stage r (forceUpdate w) = stage r w.
Proof. done. Qed.
Lemma stage_set_id r n w : stage r (set_id n w) = stage r w.
Proof. done. Qed.
Lemma stage_set_files r l w : stage r (set_files l w) = stage r w.
Proof. done. Qed.
Lemma stage_set_uploads r u w : stage r (set_uploads u w) = stage r w.
Proof. done. Qed.
Lemma stage_set_xhrs r x w : stage r (set_xhrs x w) = stage r w.
Proof. done. Qed.
Lemma stage_set_urls r u w : stage r (set_urls u w) = stage r w.
Proof. done. Qed.
Lemma stage_abort r x w : stage r (abort x w) = stage r w.
Proof. done. Qed.
Lemma stage_createObjectURL r w : stage r (createObjectURL w) = stage r w.
Proof. done. Qed.
Lemma stage_revokeObjectURL r u w : stage r (revokeObjectURL u w) = stage r w.
Proof. done. Qed.

Create Rewrite HintDb store.

#[local] Hint Rewrite get_emit get_forceUpdate get_set_id get_set_files get_set_uploads get_set_xhrs get_set_urls get_abort get_createObjectURL get_revokeObjectURL stage_emit stage_forceUpdate stage_set_id stage_set_files stage_set_uploads stage_set_xhrs stage_set_urls stage_abort stage_createObjectURL stage_revokeObjectURL : store.
#[local] Hint Rewrite get_set_stage stage_upd : store.


(** ** The stage of one activation under the tasks of the others *)

Lemma stage_assign r r' k v w : stage r (assign r' k v w) = stage r w.
Proof. apply stage_upd. Qed.

Lemma stage_spread r r' m w : stage r (spread r' m w) = stage r w.
Proof. apply stage_upd. Qed.

Lemma stage_set_status r r' s w : stage r (set_status r' s w) = stage r w.
Proof. apply stage_upd. Qed.

Lemma stage_set_stage_ne r r' s w : r ≠ r' → stage r (set_stage r' s w) = stage r w.
Proof. intros. rewrite stage_set_stage. by rewrite decide_False. Qed.

#[local] Hint Rewrite stage_assign stage_spread stage_set_status : store.
#[local] Hint Rewrite stage_set_stage_ne using done : store.

Ltac store := repeat (case_match; simplify_eq/=); autorewrite with store; try done.

Lemma stage_handleChangeStatus P r r' w : stage r (handleChangeStatus P r' w) = stage r w.
Proof. unfold handleChangeStatus. store. Qed.

Lemma stage_uploadFile P r r' w : stage r (uploadFile P r' w) = stage r w.
Proof. unfold uploadFile. store. Qed.

#[local] Hint Rewrite stage_handleChangeStatus stage_uploadFile : store.

Lemma stage_uploadFile_resume P r k params w :
  stage r (uploadFile_resume P k params w) = stage r w.
Proof. unfold uploadFile_resume. store. Qed.

Lemma stage_on_progress r x loaded total w :
  stage r (on_progress x loaded total w) = stage r w.
Proof. unfold on_progress. store. Qed.

Lemma stage_on_readystatechange P r x readyState status w :
  stage r (on_readystatechange P x readyState status w) = stage r w.
Proof. unfold on_readystatechange. store. Qed.

Lemma stage_handleCancel P r r' w : stage r (handleCancel P r' w) = stage r w.
Proof. unfold handleCancel. store. Qed.

Lemma stage_handleRemove P r r' w : stage r (handleRemove P r' w) = stage r w.
Proof. unfold handleRemove. store. Qed.

Lemma stage_handleRestart P r r' w : stage r (handleRestart P r' w) = stage r w.
Proof. unfold handleRestart. store. Qed.

Lemma stage_componentWillUnmount_from r l w :
  stage r (componentWillUnmount_from l w) = stage r w.
Proof.
  revert w. induction l as [|f l IH]; intros w; simpl; [done|].
  store; by rewrite IH.
Qed.

(** The closure of [r'] moves the stage of [r'] only, and only from
    [Gate false]. *)
Lemma stage_triggerUpload P r r' w :
  r ≠ r' ∨ stage r w ≠ Some (Gate false) →
  stage r (triggerUpload P r' w) = stage r w.
Proof.
  intros H. unfold triggerUpload.
  destruct (stage r' w) as [[| | |[]]|] eqn:E; try done.
  assert (r ≠ r') by (destruct H; congruence).
  store.
Qed.

Lemma stage_generatePreview_end r r' u w :
  r ≠ r' → stage r (generatePreview_end r' u w) = stage r w.
Proof. intros. unfold generatePreview_end. store. Qed.

Lemma stage_generatePreview_video P r r' u ty w :
  r ≠ r' → stage r (generatePreview_video P r' u ty w) = stage r w.
Proof.
  intros. unfold generatePreview_video. case_match; [store | by apply stage_generatePreview_end].
Qed.

Lemma stage_generatePreview_audio P r r' u ty w :
  r ≠ r' → stage r (generatePreview_audio P r' u ty w) = stage r w.
Proof.
  intros. unfold generatePreview_audio. case_match; [store | by apply stage_generatePreview_video].
Qed.

Lemma stage_generatePreview_image P r r' u ty w :
  r ≠ r' → stage r (generatePreview_image P r' u ty w) = stage r w.
Proof.
  intros. unfold generatePreview_image. case_match; [store | by apply stage_generatePreview_audio].
Qed.

Lemma stage_generatePreview P r r' w :
  r ≠ r' → stage r (generatePreview P r' w) = stage r w.
Proof.
  intros. unfold generatePreview.
  destruct (meta_of r' "type" w); store.
  by rewrite stage_generatePreview_image.
Qed.

Lemma stage_on_decoded P r r' d w :
  r ≠ r' → stage r (on_decoded P r' d w) = stage r w.
Proof.
  intros. unfold on_decoded.
  destruct (stage r' w) as [[|[] u ty| |]|]; try done.
  - rewrite stage_generatePreview_audio by done. store.
  - rewrite stage_generatePreview_video by done. store.
  - rewrite stage_generatePreview_end by done. store.
Qed.

Lemma stage_handleFile_resume P r r' w :
  r ≠ r' ∨ stage r w ≠ Some AwaitPreview →
  stage r (handleFile_resume P r' w) = stage r w.
Proof.
  intros H. unfold handleFile_resume.
  destruct (stage r' w) as [[| | |]|] eqn:E; try done.
  assert (r ≠ r') by (destruct H; congruence).
  destruct (onUploadReady P) as [hook|].
  - destruct (get r' _); [|store].
    destruct (hook _); [store|].
    rewrite stage_triggerUpload by auto. store.
  - rewrite stage_triggerUpload by auto. store.
Qed.

Lemma stage_alloc r c w :
  is_Some (stage r w) → stage r (set_heap (heap w ++ [c]) w) = stage r w.
Proof.
  unfold stage; simpl. rewrite fmap_is_Some. intros ?%lookup_lt_is_Some.
  by rewrite lookup_app_l.
Qed.

Lemma stage_handleFile P r file now w :
  is_Some (stage r w) → stage r (handleFile P file now w) = stage r w.
Proof.
  intros H.
  assert (r ≠ length (heap w)).
  { unfold stage in H. apply fmap_is_Some, lookup_lt_is_Some in H. lia. }
  unfold handleFile. store; rewrite ?stage_generatePreview by done; store;
    by apply stage_alloc.
Qed.

(** No task but the element's own callback moves an activation that is
    suspended in [generatePreview]. *)
Lemma stage_step_awaiting P r k u ty e w :
  stage r w = Some (AwaitDecode k u ty) →
  (∀ d, e ≠ DecodeLoaded r d) →
  stage r (step P w e) = Some (AwaitDecode k u ty).
Proof.
  intros H Hne. rewrite <- H. destruct e; simpl.
  - apply stage_handleFile. rewrite H. eauto.
  - apply stage_on_decoded. intros ->. by eapply Hne.
  - done.
  - apply stage_handleFile_resume. right. by rewrite H.
  - destruct (get _ w) as [o|]; [|done]. destruct (fw_triggerUpload o); [|done].
    apply stage_triggerUpload. right. by rewrite H.
  - apply stage_uploadFile_resume.
  - store.
  - apply stage_on_progress.
  - apply stage_on_readystatechange.
  - apply stage_handleCancel.
  - apply stage_handleRemove.
  - apply stage_handleRestart.
  - apply stage_componentWillUnmount_from.
Qed.

(** ** The handle of a record under each task *)

Lemma xhr_of_emit r o w : xhr_of r (emit o w) = xhr_of r w.
Proof. done. Qed.
Lemma xhr_of_forceUpdate r w : xhr_of r (forceUpdate w) = xhr_of r w.
Proof. done. Qed.
Lemma xhr_of_set_id r n w : xhr_of r (set_id n w) = xhr_of r w.
Proof. done. Qed.
Lemma xhr_of_set_files r l w : xhr_of r (set_files l w) = xhr_of r w.
Proof. done. Qed.
Lemma xhr_of_set_uploads r u w : xhr_of r (set_uploads u w) = xhr_of r w.
Proof. done. Qed.
Lemma xhr_of_set_xhrs r x w : xhr_of r (set_xhrs x w) = xhr_of r w.
Proof. done. Qed.
Lemma xhr_of_set_urls r u w : xhr_of r (set_urls u w) = xhr_of r w.
Proof. done. Qed.
Lemma xhr_of_abort r x w : xhr_of r (abort x w) = xhr_of r w.
Proof. done. Qed.
Lemma xhr_of_createObjectURL r w : xhr_of r (createObjectURL w) = xhr_of r w.
Proof. done. Qed.
Lemma xhr_of_revokeObjectURL r u w : xhr_of r (revokeObjectURL u w) = xhr_of r w.
Proof. done. Qed.

#[local] Hint Rewrite xhr_of_emit xhr_of_forceUpdate xhr_of_set_id xhr_of_set_files xhr_of_set_uploads xhr_of_set_xhrs xhr_of_set_urls xhr_of_abort xhr_of_createObjectURL xhr_of_revokeObjectURL : store.
#[local] Hint Rewrite xhr_of_assign xhr_of_spread xhr_of_set_stage : store.

Lemma xhr_of_set_status r r' s w : xhr_of r (set_status r' s w) = xhr_of r w.
Proof. apply xhr_of_assign. Qed.

Lemma xhr_of_with_triggerUpload r r' w : xhr_of r (upd r' with_triggerUpload w) = xhr_of r w.
Proof.
  unfold xhr_of. rewrite get_upd. case_decide; [|done]. by destruct (get r w).
Qed.

Lemma xhr_of_with_xhr r r' x w :
  xhr_of r (upd r' (with_xhr x) w) =
  if decide (r = r' ∧ is_Some (get r w)) then Some x else xhr_of r w.
Proof.
  unfold xhr_of. rewrite get_upd. destruct (decide (r = r')) as [->|].
  - destruct (get r' w); simpl.
    + by rewrite decide_True by eauto.
    + by rewrite decide_False by (by intros (? & [? ?])).
  - by rewrite decide_False by (by intros (? & ?)).
Qed.

#[local] Hint Rewrite xhr_of_set_status xhr_of_with_triggerUpload : store.

Lemma xhr_of_handleChangeStatus P r r' w : xhr_of r (handleChangeStatus P r' w) = xhr_of r w.
Proof. unfold handleChangeStatus. store. Qed.

Lemma xhr_of_uploadFile P r r' w : xhr_of r (uploadFile P r' w) = xhr_of r w.
Proof. unfold uploadFile. store. Qed.

#[local] Hint Rewrite xhr_of_handleChangeStatus xhr_of_uploadFile : store.

Lemma xhr_of_on_progress r x loaded total w :
  xhr_of r (on_progress x loaded total w) = xhr_of r w.
Proof. unfold on_progress. store. Qed.

Lemma xhr_of_on_readystatechange P r x readyState status w :
  xhr_of r (on_readystatechange P x readyState status w) = xhr_of r w.
Proof. unfold on_readystatechange. store. Qed.

Lemma xhr_of_triggerUpload P r r' w : xhr_of r (triggerUpload P r' w) = xhr_of r w.
Proof. unfold triggerUpload. store. Qed.

Lemma xhr_of_handleCancel P r r' w : xhr_of r (handleCancel P r' w) = xhr_of r w.
Proof. unfold handleCancel. store. Qed.

Lemma xhr_of_handleRemove P r r' w : xhr_of r (handleRemove P r' w) = xhr_of r w.
Proof. unfold handleRemove. store. Qed.

Lemma xhr_of_handleRestart P r r' w : xhr_of r (handleRestart P r' w) = xhr_of r w.
Proof. unfold handleRestart. store. Qed.

Lemma xhr_of_componentWillUnmount_from r l w :
  xhr_of r (componentWillUnmount_from l w) = xhr_of r w.
Proof.
  revert w. induction l as [|f l IH]; intros w; simpl; [done|].
  store; by rewrite IH.
Qed.

Lemma xhr_of_generatePreview P r r' w : xhr_of r (generatePreview P r' w) = xhr_of r w.
Proof.
  unfold generatePreview, generatePreview_image, generatePreview_audio,
    generatePreview_video, generatePreview_end. store.
Qed.

Lemma xhr_of_on_decoded P r r' d w : xhr_of r (on_decoded P r' d w) = xhr_of r w.
Proof.
  unfold on_decoded, generatePreview_audio, generatePreview_video, generatePreview_end.
  store.
Qed.

#[local] Hint Rewrite xhr_of_triggerUpload xhr_of_generatePreview : store.

Lemma xhr_of_handleFile_resume P r r' w : xhr_of r (handleFile_resume P r' w) = xhr_of r w.
Proof. unfold handleFile_resume. store. Qed.

Lemma xhr_of_alloc r file now n w :
  xhr_of r (set_heap (heap w ++ [{| fwm := new_fileWithMeta file now n; pc := Stopped |}]) w)
  = xhr_of r w.
Proof.
  unfold xhr_of, get; simpl. destruct (decide (r < length (heap w))).
  - by rewrite lookup_app_l.
  - rewrite lookup_app_r by lia. rewrite (lookup_ge_None_2 (heap w)) by lia.
    by destruct (r - length (heap w)).
Qed.

#[local] Hint Rewrite xhr_of_alloc : store.

Lemma xhr_of_handleFile P r file now w : xhr_of r (handleFile P file now w) = xhr_of r w.
Proof. unfold handleFile. store. Qed.


Lemma xhr_of_step_other P r w e :
  (∀ k params, e ≠ ParamsResolved k params) →
  xhr_of r (step P w e) = xhr_of r w.
Proof.
  intros He. destruct e; simpl.
  - apply xhr_of_handleFile.
  - apply xhr_of_on_decoded.
  - done.
  - apply xhr_of_handleFile_resume.
  - store.
  - by edestruct He.
  - store.
  - apply xhr_of_on_progress.
  - apply xhr_of_on_readystatechange.
  - apply xhr_of_handleCancel.
  - apply xhr_of_handleRemove.
  - apply xhr_of_handleRestart.
  - apply xhr_of_componentWillUnmount_from.
Qed.

(** [uploadFile], resumed: either no request is made and the handles
    stay, or one request is made, the next in allocation order, and the
    record of the activation holds it. *)
Lemma xhr_of_uploadFile_resume P k params w :
  (xhrs (uploadFile_resume P k params w) = xhrs w
   ∧ ∀ r, xhr_of r (uploadFile_resume P k params w) = xhr_of r w)
  ∨ (∃ r0 q, uploads w !! k = Some (r0, true)
       ∧ xhrs (uploadFile_resume P k params w) = (xhrs w ++ [q])%list
       ∧ x_for q = r0 ∧ x_sent q = true ∧ x_aborted q = false
       ∧ ∀ r, xhr_of r (uploadFile_resume P k params w)
              = if decide (r = r0) then Some (length (xhrs w)) else xhr_of r w).
Proof.
  unfold uploadFile_resume.
  destruct (uploads w !! k) as [[r0 []]|] eqn:Hk; [|left; done..].
  cbv zeta. change (get r0 (set_uploads ?u w)) with (get r0 w).
  destruct (String.eqb _ _).
  { left. split; [unfold handleChangeStatus; repeat case_match; done | intros; store]. }
  destruct (get r0 w) as [o|] eqn:G; [|left; done].
  right. eexists r0, _. split; [done|]. split; [done|]. repeat split.
  intros r. rewrite xhr_of_with_xhr. autorewrite with store.
  destruct (decide (r = r0)) as [->|].
  - rewrite decide_True; [done|]. split; [done|].
    unfold spread. rewrite get_upd, decide_True by done.
    change (get r0 (set_xhrs ?x (set_uploads ?u w))) with (get r0 w).
    rewrite G. eauto.
  - by rewrite decide_False by (by intros (? & ?)).
Qed.

Lemma length_xhrs_abort x w : length (xhrs (abort x w)) = length (xhrs w).
Proof. unfold abort; simpl. apply length_alter. Qed.

Lemma length_xhrs_componentWillUnmount_from l w :
  length (xhrs (componentWillUnmount_from l w)) = length (xhrs w).
Proof.
  revert w. induction l as [|f l IH]; intros w; simpl; [done|].
  repeat case_match; try done. by rewrite IH, length_xhrs_abort.
Qed.

Lemma length_xhrs_step P w e : length (xhrs w) ≤ length (xhrs (step P w e)).
Proof.
  destruct e; simpl.
  - unfold handleFile, generatePreview, generatePreview_image, generatePreview_audio,
      generatePreview_video, generatePreview_end, handleChangeStatus.
    repeat case_match; simpl; lia.
  - unfold on_decoded, generatePreview_audio, generatePreview_video, generatePreview_end.
    repeat case_match; simpl; lia.
  - lia.
  - unfold handleFile_resume, triggerUpload, uploadFile, handleChangeStatus.
    repeat case_match; simpl; lia.
  - unfold triggerUpload, uploadFile, handleChangeStatus. repeat case_match; simpl; lia.
  - destruct (xhr_of_uploadFile_resume P k params w) as [[-> _]|(? & ? & _ & -> & _)];
      [lia | rewrite length_app; lia].
  - repeat case_match; simpl; lia.
  - unfold on_progress. repeat case_match; simpl; lia.
  - unfold on_readystatechange, handleChangeStatus. repeat case_match; simpl; lia.
  - unfold handleCancel. repeat case_match; rewrite ?length_xhrs_abort; simpl;
      rewrite ?length_alter; lia.
  - unfold handleRemove. repeat case_match; simpl; lia.
  - unfold handleRestart, uploadFile, handleChangeStatus. repeat case_match; simpl; lia.
  - unfold componentWillUnmount. rewrite length_xhrs_componentWillUnmount_from. lia.
Qed.

Lemma handles_exist_step P w e : handles_exist w → handles_exist (step P w e).
Proof.
  intros H r x Hx. pose proof (length_xhrs_step P w e) as Hlen.
  assert ((∃ k params, e = ParamsResolved k params) ∨ ∀ k params, e ≠ ParamsResolved k params)
    as [(k & params & ->)|Hne] by (destruct e; eauto).
  - simpl in *.
    destruct (xhr_of_uploadFile_resume P k params w)
      as [[E1 E2]|(r0 & q & _ & E1 & _ & _ & _ & E2)].
    + rewrite E2 in Hx. rewrite E1. eauto.
    + rewrite E2 in Hx. rewrite E1, length_app; simpl. case_decide.
      * simplify_eq. lia.
      * apply H in Hx. lia.
  - rewrite xhr_of_step_other in Hx by done. apply H in Hx. lia.
Qed.

Lemma handles_exist_run P es w : handles_exist w → handles_exist (run P w es).
Proof.
  revert w. induction es as [|e es IH]; intros w H; [done|].
  simpl. apply IH. by apply handles_exist_step.
Qed.

Lemma handles_exist_init : handles_exist init.
Proof. by intros r x. Qed.

(** ** The properties of [meta] under each task *)

Lemma meta_of_emit r k o w : meta_of r k (emit o w) = meta_of r k w.
Proof. done. Qed.
Lemma meta_of_forceUpdate r k w : meta_of r k (forceUpdate w) = meta_of r k w.
Proof. done. Qed.
Lemma meta_of_set_id r k n w : meta_of r k (set_id n w) = meta_of r k w.
Proof. done. Qed.
Lemma meta_of_set_files r k l w : meta_of r k (set_files l w) = meta_of r k w.
Proof. done. Qed.
Lemma meta_of_set_uploads r k u w : meta_of r k (set_uploads u w) = meta_of r k w.
Proof. done. Qed.
Lemma meta_of_set_xhrs r k x w : meta_of r k (set_xhrs x w) = meta_of r k w.
Proof. done. Qed.
Lemma meta_of_set_urls r k u w : meta_of r k (set_urls u w) = meta_of r k w.
Proof. done. Qed.
Lemma meta_of_abort r k x w : meta_of r k (abort x w) = meta_of r k w.
Proof. done. Qed.
Lemma meta_of_createObjectURL r k w : meta_of r k (createObjectURL w) = meta_of r k w.
Proof. done. Qed.
Lemma meta_of_revokeObjectURL r k u w : meta_of r k (revokeObjectURL u w) = meta_of r k w.
Proof. done. Qed.

#[local] Hint Rewrite meta_of_emit meta_of_forceUpdate meta_of_set_id meta_of_set_files meta_of_set_uploads meta_of_set_xhrs meta_of_set_urls meta_of_abort meta_of_createObjectURL meta_of_revokeObjectURL meta_of_set_stage : store.

Lemma meta_of_with_xhr r k r' x w : meta_of r k (upd r' (with_xhr x) w) = meta_of r k w.
Proof.
  unfold meta_of. rewrite get_upd. case_decide; [|done]. by destruct (get r w).
Qed.

Lemma meta_of_with_triggerUpload r k r' w :
  meta_of r k (upd r' with_triggerUpload w) = meta_of r k w.
Proof.
  unfold meta_of. rewrite get_upd. case_decide; [|done]. by destruct (get r w).
Qed.

#[local] Hint Rewrite meta_of_with_xhr meta_of_with_triggerUpload : store.

Lemma meta_of_assign_ne r k r' k' v w :
  k ≠ k' → meta_of r k (assign r' k' v w) = meta_of r k w.
Proof. intros. rewrite meta_of_assign. by rewrite decide_False by (by intros (? & ? & ?)). Qed.

Lemma meta_of_assign_eq r k v w :
  is_Some (get r w) → meta_of r k (assign r k v w) = v.
Proof. intros. rewrite meta_of_assign. by rewrite decide_True. Qed.

Lemma meta_of_spread_None r k r' m w :
  m !! k = None → meta_of r k (spread r' m w) = meta_of r k w.
Proof. intros E. rewrite meta_of_spread, E. by case_decide. Qed.

Lemma meta_of_set_status_eq r s w :
  is_Some (get r w) → meta_of r "status" (set_status r s w) = VStr s.
Proof. apply meta_of_assign_eq. Qed.

Lemma get_is_Some_upd r r' f w : is_Some (get r (upd r' f w)) ↔ is_Some (get r w).
Proof. rewrite get_upd. case_decide; [|done]. by rewrite fmap_is_Some. Qed.

Lemma get_is_Some_set_status r r' s w :
  is_Some (get r (set_status r' s w)) ↔ is_Some (get r w).
Proof. apply get_is_Some_upd. Qed.

(** [handleChangeStatus] never writes [meta.status], whatever the hook
    returns. *)
Lemma meta_of_status_handleChangeStatus P r r' w :
  meta_of r "status" (handleChangeStatus P r' w) = meta_of r "status" w.
Proof.
  unfold handleChangeStatus. repeat case_match; try done.
  autorewrite with store. rewrite meta_of_spread_None; [done|].
  apply lookup_delete_eq.
Qed.

Lemma get_is_Some_handleChangeStatus P r r' w :
  is_Some (get r (handleChangeStatus P r' w)) ↔ is_Some (get r w).
Proof.
  unfold handleChangeStatus. repeat case_match; try done.
  autorewrite with store. unfold spread. by rewrite get_is_Some_upd.
Qed.

Lemma get_uploadFile P r r' w : get r (uploadFile P r' w) = get r w.
Proof. unfold uploadFile. repeat case_match; done. Qed.

#[local] Hint Rewrite get_uploadFile : store.

(** ** The upload trigger without a provider *)

(** Without a provider and without a status hook, the closure
    [triggerUpload] writes [status] and nothing else of the record. *)
Lemma triggerUpload_without_provider P r w :
  getUploadParams P = false →
  onChangeStatus P = None →
  stage r w = Some (Gate false) →
  meta_of r "status" (triggerUpload P r w) = VStr "done"
  ∧ meta_of r "percent" (triggerUpload P r w) = meta_of r "percent" w
  ∧ xhr_of r (triggerUpload P r w) = xhr_of r w
  ∧ xhrs (triggerUpload P r w) = xhrs w.
Proof.
  intros HP HC HS. unfold triggerUpload.
  rewrite HS, HP, handleChangeStatus_no_hook by done.
  assert (is_Some (get r w)) as G by (rewrite is_Some_get_stage, HS; eauto).
  change (meta_of r ?k (forceUpdate ?v)) with (meta_of r k v).
  change (xhr_of r (forceUpdate ?v)) with (xhr_of r v).
  unfold set_status.
  rewrite !meta_of_assign, !meta_of_set_stage, xhr_of_assign, xhr_of_set_stage, get_set_stage.
  rewrite decide_True by done. rewrite decide_False by (by intros (? & ? & ?)).
  done.
Qed.

(** C1 (code defect).  The scenario of the specification: [a.png], size
    500, type [image/png], [minSizeBytes=0, maxSizeBytes=1000,
    maxFiles=1], no provider.  The record passes the three checks, its
    image is decoded and the upload trigger runs: the status is ['done']
    and no transport was ever made, but [meta.percent] still is the [0]
    it was created with, not [100]. *)
Theorem C1_done_without_provider_percent_0 :
  let w := run Scenario.plain init
             [Accept Scenario.a_png 1; DecodeLoaded 0 Scenario.decoded; PreviewDone 0] in
  _files w = [0]
  ∧ stage 0 w = Some (Gate true)
  ∧ meta_of 0 "status" w = VStr "done"
  ∧ meta_of 0 "percent" w = VNum (num_of_nat 0)
  ∧ xhr_of 0 w = None
  ∧ xhrs w = [].
Proof. vm_compute. repeat split; reflexivity. Qed.

(** ** The progress listener *)

(** C6 (code defect).  [((e.loaded * 100.0) / e.total) || 100] on the two
    inputs where [||] misfires: with 5 bytes loaded of an unknown total
    ([total = 0]) the quotient is [Infinity], which is truthy, so
    [percent] becomes [Infinity] and not [100]; with 0 bytes loaded of 100
    the quotient [0] is falsy, so [percent] becomes [100] and not
    [0/100 * 100 = 0].  The last part runs the listener on a record that
    is uploading. *)
Theorem C6_progress_percent_misfires :
  progress_percent 5 0 = Infinity
  ∧ progress_percent 0 100 = Fin 100
  ∧ (let w := run Scenario.uploading init
                [Accept Scenario.a_txt 1; PreviewDone 0;
                 ParamsResolved 0 (Some Scenario.to_host); Progress 0 5 0] in
     meta_of 0 "status" w = VStr "uploading"
     ∧ meta_of 0 "percent" w = VNum Infinity).
Proof. vm_compute. repeat split; reflexivity. Qed.

(** Where [||] does not misfire the listener computes the quotient. *)
Lemma progress_percent_regular (loaded total : N) :
  (0 < loaded)%N → (0 < total)%N →
  progress_percent loaded total
  = Fin (Qred (Z.of_N (loaded * 100) # Z.to_pos (Z.of_N total))).
Proof.
  intros Hl Ht. unfold progress_percent, js_div.
  destruct (N.eqb_spec total 0) as [->|_]; [lia|].
  simpl. destruct (Qeq_bool _ 0) eqn:E; [|done].
  apply Qeq_bool_eq in E. rewrite Qred_correct in E.
  unfold Qeq in E; simpl in E. lia.
Qed.


(** ** Metadata extraction *)

(** C4 (code defect).  [fileCallbackToPromise] resolves from [onload] /
    [onloadedmetadata] only.  Once [generatePreview] is suspended on an
    element, every run of the system in which that callback does not
    fire (a failed decode fires [onerror], for which there is no
    listener) leaves the activation suspended where it was: the
    extraction does not complete and [handleFile] never gets to build
    [triggerUpload]. *)
Theorem C4_failed_decode_blocks_the_pipeline P r k u ty w es :
  stage r w = Some (AwaitDecode k u ty) →
  Forall (λ e, ∀ d, e ≠ DecodeLoaded r d) es →
  stage r (run P w es) = Some (AwaitDecode k u ty).
Proof.
  intros H Hes. revert w H.
  induction Hes as [|e es He _ IH]; intros w H; [done|].
  simpl. apply IH. by apply stage_step_awaiting.
Qed.

Lemma C4_witness :
  let w := run Scenario.plain init [Accept Scenario.a_png 1] in
  let es := [DecodeFailed 0; PreviewDone 0; TriggerUpload 0; Restart 0; Remove 0] in
  stage 0 w = Some (AwaitDecode Image 0 "image/png")
  ∧ meta_of 0 "status" w = VStr "preparing"
  ∧ stage 0 (run Scenario.plain w es) = Some (AwaitDecode Image 0 "image/png").
Proof.
  split; [reflexivity|]. split; [reflexivity|].
  apply (C4_failed_decode_blocks_the_pipeline Scenario.plain 0 Image 0 "image/png").
  - reflexivity.
  - repeat constructor; discriminate.
Defined.

(** A [type] has one of the three prefixes at most. *)
Lemma prefix_image_only ty :
  String.prefix "image/" ty = true →
  String.prefix "audio/" ty = false ∧ String.prefix "video/" ty = false.
Proof.
  destruct ty as [|[[] [] [] [] [] [] [] []] ty]; done.
Qed.

(** When the image of a record has been decoded, [generatePreview] goes
    on to its last statements and revokes the object URL, whatever
    [meta.previewUrl] holds. *)
Lemma on_decoded_image_revokes P r u ty d w :
  stage r w = Some (AwaitDecode Image u ty) →
  String.prefix "image/" ty = true →
  urls (on_decoded P r d w) = <[u := false]> (urls w)
  ∧ meta_of r "previewUrl" (on_decoded P r d w) = meta_of r "previewUrl" w.
Proof.
  intros H [Ha Hv]%prefix_image_only. unfold on_decoded. rewrite H.
  unfold generatePreview_audio, generatePreview_video, generatePreview_end.
  rewrite Ha, Hv. simpl. split; [done|].
  rewrite meta_of_set_stage.
  change (meta_of r ?k (forceUpdate ?v)) with (meta_of r k v).
  change (meta_of r ?k (revokeObjectURL ?x ?v)) with (meta_of r k v).
  rewrite !meta_of_assign.
  by rewrite !decide_False by (by intros (? & ? & ?)).
Qed.

(** C5 (code defect).  First part: [a.png] with the image preview
    enabled.  After [handleFile] the record holds object URL 0 in
    [meta.previewUrl] and the URL is live; when the image has loaded,
    [meta.previewUrl] still holds URL 0 but [generatePreview] has revoked
    it.  Second part: [a.mp3] whose decode fails.  The URL made for the
    audio element stays live and the extractor stays suspended: nothing
    releases it. *)
Theorem C5_image_url_revoked_failed_audio_url_kept :
  (let w0 := run Scenario.plain init [Accept Scenario.a_png 1] in
   let w := step Scenario.plain w0 (DecodeLoaded 0 Scenario.decoded) in
   meta_of 0 "previewUrl" w0 = VUrl 0 ∧ urls w0 = [true]
   ∧ meta_of 0 "previewUrl" w = VUrl 0 ∧ urls w = [false])
  ∧ (let w0 := run Scenario.plain init [Accept Scenario.a_mp3 1] in
     let w := step Scenario.plain w0 (DecodeFailed 0) in
     urls w0 = [true] ∧ urls w = [true]
     ∧ stage 0 w = Some (AwaitDecode Audio 0 "audio/mpeg")).
Proof. vm_compute. repeat split; reflexivity. Qed.

(** ** Disposal *)

(** C9 (code defect).  Two files are accepted with a provider
    configured; both triggers have run, so both records are
    ['uploading'], and the provider has answered for the second one
    only: record 1 holds request 0, record 0 holds no [xhr] yet.
    [componentWillUnmount] reads [file.xhr.abort] on record 0 first,
    which throws: one exception leaves the task and the loop never
    reaches record 1, whose request is not aborted.  When the provider
    then answers for record 0, a second request is sent: both transports
    outlive the component. *)
Theorem C9_unmount_faults_before_the_handle_is_attached :
  let w := run Scenario.uploading init
             [Accept Scenario.a_txt 1; PreviewDone 0; Accept Scenario.b_txt 2; PreviewDone 1;
              ParamsResolved 1 (Some Scenario.to_host)] in
  let w' := step Scenario.uploading w Unmount in
  let w'' := step Scenario.uploading w' (ParamsResolved 0 (Some Scenario.to_host)) in
  _files w = [0; 1]
  ∧ meta_of 0 "status" w = VStr "uploading" ∧ xhr_of 0 w = None
  ∧ meta_of 1 "status" w = VStr "uploading" ∧ xhr_of 1 w = Some 0
  ∧ uncaught w = 0 ∧ uncaught w' = 1
  ∧ (x_aborted <$> xhrs w') = [false]
  ∧ xhr_of 0 w'' = Some 1
  ∧ ((λ q, (x_sent q, x_aborted q)) <$> xhrs w'') = [(true, false); (true, false)].
Proof. vm_compute. repeat split; reflexivity. Qed.

(** ** Restart *)

Lemma uncaught_handleChangeStatus P r w : uncaught (handleChangeStatus P r w) = uncaught w.
Proof. unfold handleChangeStatus. repeat case_match; done. Qed.

Lemma uncaught_handleRestart P r w : uncaught (handleRestart P r w) = uncaught w.
Proof.
  unfold handleRestart.
  assert (uncaught (uploadFile P r w) = uncaught w) as E
    by (unfold uploadFile; repeat case_match; done).
  destruct (onRestart P); unfold uncaught in *; simpl;
    fold (uncaught (handleChangeStatus P r (set_status r "uploading" (uploadFile P r w))));
    by rewrite uncaught_handleChangeStatus.
Qed.

Lemma meta_of_status_handleRestart P r w :
  is_Some (get r w) → meta_of r "status" (handleRestart P r w) = VStr "uploading".
Proof.
  intros G. unfold handleRestart.
  destruct (onRestart P); autorewrite with store;
    rewrite meta_of_status_handleChangeStatus, meta_of_set_status_eq;
    autorewrite with store; done.
Qed.

Lemma xhrs_handleRestart P r w : xhrs (handleRestart P r w) = xhrs w.
Proof. unfold handleRestart, uploadFile, handleChangeStatus. repeat case_match; done. Qed.

Lemma uploads_handleRestart P r w :
  is_Some (get r w) →
  uploads (handleRestart P r w)
  = if getUploadParams P then (uploads w ++ [(r, true)])%list else uploads w.
Proof.
  intros [o G]. unfold handleRestart, uploadFile, handleChangeStatus. rewrite G.
  repeat case_match; done.
Qed.




(** ** Who writes [meta.status] *)

Lemma get_handleChangeStatus_hook P r w hook o m :
  onChangeStatus P = Some hook → get r w = Some o →
  hook o (prop "status" o) = Some m →
  get r (handleChangeStatus P r w) = Some (with_meta (delete "status" m ∪ fw_meta o) o).
Proof.
  intros HP G Hm. unfold handleChangeStatus. rewrite HP, G, Hm.
  autorewrite with store. unfold spread. rewrite get_upd, decide_True by done.
  autorewrite with store. by rewrite G.
Qed.

Lemma get_uploadFile_resume_url P k params w r o url :
  uploads w !! k = Some (r, true) → get r w = Some o →
  params ≫= p_url = Some url → url ≠ "" →
  fw_meta <$> get r (uploadFile_resume P k params w)
  = Some (delete "status" (default ∅ (params ≫= p_meta)) ∪ fw_meta o).
Proof.
  intros Hk G Hurl Hne. unfold uploadFile_resume. rewrite Hk. cbv zeta.
  change (get r (set_uploads ?u w)) with (get r w). rewrite G, Hurl. simpl.
  destruct (String.eqb_spec url ""); [done|].
  rewrite get_upd, decide_True by done. unfold spread.
  rewrite get_upd, decide_True by done. autorewrite with store. by rewrite G.
Qed.



(** ** The counter [id] *)

Lemma id_componentWillUnmount_from l w :
  id (componentWillUnmount_from l w) = id w
  ∧ _files (componentWillUnmount_from l w) = _files w.
Proof.
  revert w. induction l as [|f l IH]; intros w; simpl; [done|].
  repeat case_match; try done. by destruct (IH (abort n w)).
Qed.

Ltac unfold_handlers :=
  unfold handleFile, handleFile_resume, on_decoded, handleRestart, handleCancel,
    handleRemove, on_progress, on_readystatechange, uploadFile_resume in *;
  unfold generatePreview, triggerUpload in *;
  unfold generatePreview_image in *; unfold generatePreview_audio in *;
  unfold generatePreview_video in *; unfold generatePreview_end in *;
  unfold uploadFile, handleChangeStatus in *.

(** The counter moves in [handleFile] only, past the two early exits. *)
Lemma id_step P w e :
  id (step P w e) = if retains P w e then id w + 1 else id w.
Proof.
  destruct e; simpl;
    try (unfold_handlers; repeat case_match; done).
  - unfold rejected. unfold_handlers.
    change (rejected_max_files P (set_heap ?h w)) with (rejected_max_files P w).
    destruct (rejected_file_type P file), (rejected_max_files P w); simpl;
      repeat case_match; done.
  - apply id_componentWillUnmount_from.
Qed.

Lemma id_run P es w : id (run P w es) = id w + retained_count P w es.
Proof.
  revert w. induction es as [|e es IH]; intros w; simpl; [lia|].
  rewrite IH, id_step. destruct (retains P w e); lia.
Qed.

Lemma get_alloc_new c w : get (length (heap w)) (set_heap (heap w ++ [c]) w) = Some (fwm c).
Proof. unfold get; simpl. by rewrite lookup_app_r, Nat.sub_diag. Qed.

Lemma get_alloc_old r c w :
  is_Some (get r w) → get r (set_heap (heap w ++ [c]) w) = get r w.
Proof.
  unfold get; simpl. rewrite fmap_is_Some. intros ?%lookup_lt_is_Some.
  by rewrite lookup_app_l.
Qed.

Lemma notified_handleChangeStatus P hook r w o :
  onChangeStatus P = Some hook → get r w = Some o →
  notified (handleChangeStatus P r w) = (r, prop "status" o, prop "id" o) :: notified w.
Proof.
  intros HP G. unfold handleChangeStatus. rewrite HP, G. by destruct (hook _ _).
Qed.

Lemma notified_handleChangeStatus_mono P r w x :
  x ∈ notified w → x ∈ notified (handleChangeStatus P r w).
Proof.
  intros H. unfold handleChangeStatus. repeat case_match; try done;
    unfold notified; simpl; by apply list_elem_of_further.
Qed.

Lemma notified_generatePreview P r w : notified (generatePreview P r w) = notified w.
Proof. unfold_handlers. repeat case_match; done. Qed.

(** The record [handleFile] makes, when the hook is first called with
    it. *)
Lemma get_new_with_status file now w s :
  let r := length (heap w) in
  ∃ o, get r (set_status r s
                (set_heap (heap w ++ [{| fwm := new_fileWithMeta file now (id w);
                                         pc := Stopped |}]) w)) = Some o
       ∧ prop "status" o = VStr s
       ∧ prop "id" o = VNum (num_of_nat (id w)).
Proof.
  intros r. unfold set_status, assign. rewrite get_upd, decide_True by done.
  unfold r at 1. rewrite get_alloc_new. simpl. eexists. split; [done|].
  unfold prop; simpl. rewrite lookup_insert_eq.
  by rewrite !lookup_insert_ne, lookup_insert_eq by done.
Qed.

(** [handleFile] on a file that is rejected. *)
Lemma handleFile_rejected P hook w file now :
  onChangeStatus P = Some hook →
  rejected P w file = true →
  let w1 := handleFile P file now w in
  _files w1 = _files w ∧ id w1 = id w
  ∧ ∃ s, (s = "rejected_file_type" ∨ s = "rejected_max_files")
         ∧ notified w1 = (length (heap w), VStr s, VNum (num_of_nat (id w))) :: notified w.
Proof.
  intros HP Hrej w1. subst w1. unfold rejected in Hrej. unfold handleFile.
  change (rejected_max_files P (set_heap ?h w)) with (rejected_max_files P w).
  destruct (rejected_file_type P file) eqn:E1.
  - destruct (get_new_with_status file now w "rejected_file_type") as (o & G & Hs & Hi).
    split; [unfold handleChangeStatus; repeat case_match; done|].
    split; [unfold handleChangeStatus; repeat case_match; done|].
    exists "rejected_file_type". split; [by left|].
    erewrite notified_handleChangeStatus by done. by rewrite Hs, Hi.
  - simpl in Hrej. rewrite Hrej.
    destruct (get_new_with_status file now w "rejected_max_files") as (o & G & Hs & Hi).
    split; [unfold handleChangeStatus; repeat case_match; done|].
    split; [unfold handleChangeStatus; repeat case_match; done|].
    exists "rejected_max_files". split; [by right|].
    erewrite notified_handleChangeStatus by done. by rewrite Hs, Hi.
Qed.

(** [handleFile] on a file that is not rejected. *)
Lemma handleFile_retained P w file now :
  rejected P w file = false →
  let w1 := handleFile P file now w in
  _files w1 = (_files w ++ [length (heap w)])%list ∧ id w1 = id w + 1
  ∧ ∀ hook, onChangeStatus P = Some hook →
      (length (heap w), VStr "preparing", VNum (num_of_nat (id w))) ∈ notified w1.
Proof.
  intros Hrej w1. subst w1. unfold rejected in Hrej.
  apply orb_false_iff in Hrej as [E1 E2]. unfold handleFile.
  change (rejected_max_files P (set_heap ?h w)) with (rejected_max_files P w).
  rewrite E1, E2. cbv zeta.
  split; [unfold_handlers; repeat case_match; done|].
  split; [unfold_handlers; repeat case_match; done|].
  intros hook HP.
  destruct (get_new_with_status file now w "preparing") as (o & G & Hs & Hi).
  match goal with
  | |- _ ∈ notified (if _ then forceUpdate (handleChangeStatus _ _ (set_status _ _ ?v))
                     else generatePreview _ _ ?v) =>
      assert ((length (heap w), VStr "preparing", VNum (num_of_nat (id w))) ∈ notified v) as Hin
  end.
  { change (notified (set_id ?n (forceUpdate ?v))) with (notified v).
    erewrite notified_handleChangeStatus; [|done|exact G].
    rewrite Hs, Hi. apply list_elem_of_here. }
  case_match.
  - change (notified (forceUpdate ?v)) with (notified v).
    by apply notified_handleChangeStatus_mono.
  - by rewrite notified_generatePreview.
Qed.

(** C10.  The counter [id] is incremented by the tasks that push a
    record on [this._files], and by no other.  So when a file is
    rejected (for its type or for capacity), the hook is called with a
    record whose [meta.id] is the current counter [n], the record is not
    retained and the counter stays; and after any further tasks that
    retain nothing, the next file that is accepted is retained and the
    hook is called, status ['preparing'], with a record whose [meta.id]
    is the same [n]. *)
Theorem C10_rejected_record_shares_the_next_id P hook w file now es file' now' :
  onChangeStatus P = Some hook →
  rejected P w file = true →
  let w1 := step P w (Accept file now) in
  retained_count P w1 es = 0 →
  let w2 := run P w1 es in
  rejected P w2 file' = false →
  let w3 := step P w2 (Accept file' now') in
  let n := VNum (num_of_nat (id w)) in
  (∀ w0 e, id (step P w0 e) = if retains P w0 e then id w0 + 1 else id w0)
  ∧ _files w1 = _files w ∧ id w1 = id w
  ∧ (∃ s, (s = "rejected_file_type" ∨ s = "rejected_max_files")
          ∧ notified w1 = (length (heap w), VStr s, n) :: notified w)
  ∧ _files w3 = (_files w2 ++ [length (heap w2)])%list
  ∧ id w3 = id w + 1
  ∧ (length (heap w2), VStr "preparing", n) ∈ notified w3.
Proof.
  intros HP Hrej w1 Hes w2 Hacc w3 n.
  split; [apply id_step|].
  destruct (handleFile_rejected P hook w file now HP Hrej) as (F1 & I1 & N1).
  destruct (handleFile_retained P w2 file' now' Hacc) as (F3 & I3 & N3).
  assert (id w2 = id w) as I2.
  { unfold w2. rewrite id_run, Hes. unfold w1; simpl. lia. }
  rewrite I2 in I3, N3.
  repeat split; try done. by apply (N3 hook).
Qed.

Lemma C10_witness :
  let w := run Scenario.picky init [Accept Scenario.a_txt 1] in
  let w1 := step Scenario.picky w (Accept Scenario.a_png 2) in
  let w2 := run Scenario.picky w1 [Accept Scenario.b_txt 3; Remove 0] in
  let w3 := step Scenario.picky w2 (Accept Scenario.b_txt 4) in
  id w = 1
  ∧ _files w1 = [0] ∧ id w1 = 1
  ∧ head (notified w1) = Some (1, VStr "rejected_file_type", VNum (num_of_nat 1))
  ∧ _files w2 = []
  ∧ _files w3 = [3]
  ∧ (3, VStr "preparing", VNum (num_of_nat 1)) ∈ notified w3.
Proof.
  intros w w1 w2 w3.
  assert (rejected Scenario.picky w Scenario.a_png = true) as Hrej
    by (vm_compute; reflexivity).
  assert (retained_count Scenario.picky w1 [Accept Scenario.b_txt 3; Remove 0] = 0) as Hes
    by (vm_compute; reflexivity).
  assert (rejected Scenario.picky w2 Scenario.b_txt = false) as Hacc
    by (vm_compute; reflexivity).
  destruct (C10_rejected_record_shares_the_next_id Scenario.picky (λ _ _, None) w
              Scenario.a_png 2 [Accept Scenario.b_txt 3; Remove 0] Scenario.b_txt 4
              eq_refl Hrej Hes Hacc)
    as (_ & H1 & H2 & _ & H4 & _ & H6).
  assert (id w = 1) as Hid by (vm_compute; reflexivity).
  split; [exact Hid|].
  split; [etransitivity; [exact H1 | vm_compute; reflexivity]|].
  split; [etransitivity; [exact H2 | exact Hid]|].
  split; [vm_compute; reflexivity|]. split; [vm_compute; reflexivity|].
  split; [etransitivity; [exact H4 | vm_compute; reflexivity]|].
  rewrite Hid in H6. exact H6.
Defined.

(** ** [meta.id] under each task *)

Lemma meta_of_id_handleChangeStatus P r r' w :
  hook_keeps_id P → meta_of r "id" (handleChangeStatus P r' w) = meta_of r "id" w.
Proof.
  intros HP. unfold handleChangeStatus. repeat case_match; try done.
  autorewrite with store. rewrite meta_of_spread_None; [done|].
  rewrite lookup_delete_ne by done. eauto.
Qed.

Lemma meta_of_uploadFile P r k r' w : meta_of r k (uploadFile P r' w) = meta_of r k w.
Proof. unfold meta_of. by rewrite get_uploadFile. Qed.

Lemma meta_of_set_status_ne r k r' s w :
  k ≠ "status" → meta_of r k (set_status r' s w) = meta_of r k w.
Proof. apply meta_of_assign_ne. Qed.

#[local] Hint Rewrite meta_of_uploadFile : store.
#[local] Hint Rewrite meta_of_id_handleChangeStatus using assumption : store.
#[local] Hint Rewrite meta_of_assign_ne meta_of_set_status_ne using done : store.

Lemma meta_of_id_componentWillUnmount_from r k l w :
  meta_of r k (componentWillUnmount_from l w) = meta_of r k w.
Proof.
  revert w. induction l as [|f l IH]; intros w; simpl; [done|].
  repeat case_match; try done. by rewrite IH.
Qed.

Lemma meta_of_alloc_old r k c w :
  is_Some (get r w) → meta_of r k (set_heap (heap w ++ [c]) w) = meta_of r k w.
Proof. intros. unfold meta_of. by rewrite get_alloc_old. Qed.

Lemma meta_of_id_uploadFile_resume P r k params w :
  hook_keeps_id P → event_keeps_id (ParamsResolved k params) →
  meta_of r "id" (uploadFile_resume P k params w) = meta_of r "id" w.
Proof.
  intros HP He. unfold uploadFile_resume. repeat case_match; autorewrite with store; try done.
  rewrite meta_of_spread_None; [done|].
  rewrite lookup_delete_ne by done.
  destruct params as [params|]; simpl in *; [|done].
  destruct (p_meta params) as [m|] eqn:E; simpl; [eauto | done].
Qed.

(** No task changes the [meta.id] of a record that exists, as long as
    the metadata from outside has no [id]. *)
Lemma meta_of_id_step P w e r :
  hook_keeps_id P → event_keeps_id e → is_Some (get r w) →
  meta_of r "id" (step P w e) = meta_of r "id" w.
Proof.
  intros HP He G. destruct e; simpl.
  - unfold handleFile, generatePreview, generatePreview_image, generatePreview_audio,
      generatePreview_video, generatePreview_end.
    repeat case_match; autorewrite with store; by apply meta_of_alloc_old.
  - unfold on_decoded, generatePreview_audio, generatePreview_video, generatePreview_end.
    repeat case_match; autorewrite with store; done.
  - done.
  - unfold handleFile_resume, triggerUpload.
    repeat case_match; autorewrite with store; done.
  - unfold triggerUpload. repeat case_match; autorewrite with store; done.
  - by apply meta_of_id_uploadFile_resume.
  - repeat case_match; done.
  - unfold on_progress. repeat case_match; autorewrite with store; done.
  - unfold on_readystatechange. repeat case_match; autorewrite with store; done.
  - unfold handleCancel. repeat case_match; done.
  - unfold handleRemove. repeat case_match; done.
  - unfold handleRestart. repeat case_match; autorewrite with store; done.
  - apply meta_of_id_componentWillUnmount_from.
Qed.

(** The record a retaining [handleFile] makes has the counter as its
    [meta.id]. *)
Lemma meta_of_id_new P w file now :
  hook_keeps_id P →
  meta_of (length (heap w)) "id" (handleFile P file now w) = VNum (num_of_nat (id w)).
Proof.
  intros HP.
  assert (meta_of (length (heap w)) "id"
            (set_heap (heap w ++ [{| fwm := new_fileWithMeta file now (id w);
                                     pc := Stopped |}]) w)
          = VNum (num_of_nat (id w))) as E.
  { unfold meta_of. rewrite get_alloc_new. simpl. unfold prop. simpl.
    by rewrite !lookup_insert_ne, lookup_insert_eq by done. }
  unfold handleFile, generatePreview, generatePreview_image, generatePreview_audio,
    generatePreview_video, generatePreview_end.
  repeat case_match; autorewrite with store; done.
Qed.

Lemma files_step P w e :
  if retains P w e
  then _files (step P w e) = (_files w ++ [length (heap w)])%list
  else ∀ r, r ∈ _files (step P w e) → r ∈ _files w.
Proof.
  destruct e; simpl;
    try (unfold_handlers; repeat case_match; done).
  - destruct (rejected P w file) eqn:E; simpl.
    + unfold rejected in E. unfold_handlers.
      change (rejected_max_files P (set_heap ?h w)) with (rejected_max_files P w).
      destruct (rejected_file_type P file), (rejected_max_files P w); simpl in *;
        repeat case_match; done.
    + by destruct (handleFile_retained P w file now E) as (-> & _).
  - unfold handleRemove. repeat case_match; simpl; try done;
      intros r' Hr'; exact (elem_of_sublist _ _ _ Hr' (sublist_delete _ _)).
  - unfold componentWillUnmount.
    by destruct (id_componentWillUnmount_from (_files w) w) as [_ ->].
Qed.

Lemma num_of_nat_inj n m : VNum (num_of_nat n) = VNum (num_of_nat m) → n = m.
Proof. unfold num_of_nat, inject_Z. intros E. simplify_eq. lia. Qed.

Lemma registry_step P H w e :
  hook_keeps_id P → event_keeps_id e →
  registry H w →
  ∃ H', H ⊆ H' ∧ registry H' (step P w e).
Proof.
  intros HP He (J1 & J2 & J3).
  assert (∀ r n, (r, n) ∈ H → is_Some (get r w)) as Hex.
  { intros r n [E _]%J1. unfold meta_of in E. by destruct (get r w). }
  pose proof (files_step P w e) as HF. pose proof (id_step P w e) as HI.
  destruct (retains P w e) eqn:Hret.
  - destruct e; try done. simpl in *.
    exists (H ++ [(length (heap w), id w)])%list.
    split; [intros x Hx; apply elem_of_app; by left|].
    split; [|split].
    + intros r n [Hin|Hin]%elem_of_app.
      * destruct (J1 r n Hin) as [E Hlt].
        split; [|lia]. rewrite <- E.
        apply (meta_of_id_step P w (Accept file now)); eauto.
      * apply list_elem_of_singleton in Hin. simplify_eq.
        split; [by apply meta_of_id_new | lia].
    + intros r n r' n' [Hin|Hin]%elem_of_app [Hin'|Hin']%elem_of_app Hne.
      * eauto.
      * apply list_elem_of_singleton in Hin'. simplify_eq.
        destruct (J1 r n Hin). lia.
      * apply list_elem_of_singleton in Hin. simplify_eq.
        destruct (J1 r' n' Hin'). lia.
      * apply list_elem_of_singleton in Hin, Hin'. by simplify_eq.
    + rewrite HF. intros r [Hin|Hin]%elem_of_app.
      * destruct (J3 r Hin) as [n ?]. exists n. apply elem_of_app. by left.
      * apply list_elem_of_singleton in Hin. subst. exists (id w).
        apply elem_of_app. right. apply list_elem_of_here.
  - exists H. split; [done|]. split; [|split].
    + intros r n Hin. destruct (J1 r n Hin) as [E Hlt].
      split; [|lia]. rewrite <- E. apply meta_of_id_step; eauto.
    + done.
    + eauto.
Qed.

Lemma registry_run P es H w :
  hook_keeps_id P → Forall event_keeps_id es →
  registry H w →
  ∃ H', H ⊆ H' ∧ registry H' (run P w es)
        ∧ ∀ w' r, w' ∈ history P w es → r ∈ _files w' →
            ∃ n, (r, n) ∈ H' ∧ meta_of r "id" w' = VNum (num_of_nat n).
Proof.
  intros HP Hes. revert H w.
  induction Hes as [|e es He _ IH]; intros H w J.
  - exists H. split; [done|]. split; [done|].
    intros w' r ->%list_elem_of_singleton Hr.
    destruct J as (J1 & _ & J3). destruct (J3 r Hr) as [n Hn].
    exists n. split; [done|]. by apply J1.
  - destruct (registry_step P H w e HP He J) as (H1 & Hsub & J').
    destruct (IH H1 (step P w e) J') as (H' & Hsub' & J'' & Hhist).
    exists H'. split; [by etrans|]. split; [done|].
    intros w' r Hw' Hr. simpl in Hw'. apply elem_of_cons in Hw' as [->|Hw']; [|eauto].
    destruct J as (J1 & _ & J3). destruct (J3 r Hr) as [n Hn].
    exists n. split; [by apply Hsub', Hsub|]. by apply J1.
Qed.

Lemma registry_init : registry [] init.
Proof. split; [|split]; intros *; simpl; by intros ?%elem_of_nil. Qed.

(** C8, as the code has it.  Provided the metadata that comes from
    outside carries no [id] (the code strips [status] from it and nothing
    else), take any run from the initial world, any two moments of it
    and a record of [this._files] at each: if the two records are
    different objects their [meta.id]s differ, and one record has the
    same [meta.id] at both moments. *)
Theorem C8_retained_ids_are_unique P es w1 w2 r1 v1 r2 v2 :
  hook_keeps_id P → Forall event_keeps_id es →
  w1 ∈ history P init es → w2 ∈ history P init es →
  (r1, v1) ∈ retained_ids w1 → (r2, v2) ∈ retained_ids w2 →
  (r1 ≠ r2 → v1 ≠ v2) ∧ (r1 = r2 → v1 = v2).
Proof.
  intros HP Hes Hw1 Hw2 H1 H2.
  destruct (registry_run P es [] init HP Hes registry_init) as (H & _ & (J1 & J2 & _) & Hh).
  unfold retained_ids in H1, H2.
  apply list_elem_of_fmap in H1 as (x1 & E1 & Hr1), H2 as (x2 & E2 & Hr2).
  injection E1 as -> ->. injection E2 as -> ->.
  destruct (Hh w1 x1 Hw1 Hr1) as (n1 & Hn1 & ->).
  destruct (Hh w2 x2 Hw2 Hr2) as (n2 & Hn2 & ->).
  split.
  - intros Hne E. apply num_of_nat_inj in E. exact (J2 _ _ _ _ Hn1 Hn2 Hne E).
  - intros <-. destruct (J1 x1 n1 Hn1) as [E1 _]. destruct (J1 x1 n2 Hn2) as [E2 _].
    by rewrite <- E1, <- E2.
Qed.

Lemma C8_witness :
  let P := Scenario.uploading in
  let w1 := step P (step P init (Accept Scenario.a_txt 1)) (Accept Scenario.b_txt 2) in
  let w2 := step P (step P w1 (Remove 0)) (Accept Scenario.a_png 3) in
  (_files w1 = [0; 1] ∧ _files w2 = [1; 2])
  ∧ meta_of 0 "id" w1 ≠ meta_of 2 "id" w2
  ∧ meta_of 1 "id" w1 = meta_of 1 "id" w2.
Proof.
  intros P w1 w2.
  assert (_files w1 = [0; 1]) as F1 by (vm_compute; reflexivity).
  assert (_files w2 = [1; 2]) as F2 by (vm_compute; reflexivity).
  split; [done|].
  set (es := [Accept Scenario.a_txt 1; Accept Scenario.b_txt 2; Remove 0;
              Accept Scenario.a_png 3]).
  assert (hook_keeps_id P) as HP by (intros hook o s m H; discriminate H).
  assert (Forall event_keeps_id es) as Hes by (repeat constructor).
  assert (w1 ∈ history P init es) as Hw1.
  { cbn [history es]. do 2 apply list_elem_of_further. apply list_elem_of_here. }
  assert (w2 ∈ history P init es) as Hw2.
  { cbn [history es]. do 4 apply list_elem_of_further. apply list_elem_of_here. }
  assert (∀ w r, r ∈ _files w → (r, meta_of r "id" w) ∈ retained_ids w) as Hin.
  { intros w r Hr. unfold retained_ids.
    by apply (list_elem_of_fmap_2 (λ r, (r, meta_of r "id" w))). }
  split.
  - apply (C8_retained_ids_are_unique P es w1 w2 0 _ 2 _ HP Hes Hw1 Hw2).
    + apply Hin. rewrite F1. apply list_elem_of_here.
    + apply Hin. rewrite F2. apply list_elem_of_further, list_elem_of_here.
    + discriminate.
  - apply (C8_retained_ids_are_unique P es w1 w2 1 _ 1 _ HP Hes Hw1 Hw2).
    + apply Hin. rewrite F1. apply list_elem_of_further, list_elem_of_here.
    + apply Hin. rewrite F2. apply list_elem_of_here.
    + reflexivity.
Defined.

(** C8, as stated, fails.  The status hook answers [{ meta: { id: 7 } }]
    to every call.  Two files are accepted and retained; the hook's
    answer is merged into each record, and both end with [meta.id = 7]. *)
Lemma C8_counterexample :
  let w := run (Scenario.answering Scenario.seven) init
             [Accept Scenario.a_txt 1; Accept Scenario.b_txt 2] in
  _files w = [0; 1]
  ∧ retained_ids w = [(0, VNum (num_of_nat 7)); (1, VNum (num_of_nat 7))].
Proof. vm_compute. split; reflexivity. Qed.

(** ** [meta.percent] *)

Lemma num_le_progress l1 t1 l2 t2 :
  (0 < l1)%N → (0 < t1)%N → (0 < l2)%N → (0 < t2)%N →
  (l1 * t2 ≤ l2 * t1)%N →
  num_le (progress_percent l1 t1) (progress_percent l2 t2).
Proof.
  intros. rewrite !progress_percent_regular by done. simpl.
  rewrite !Qred_correct. unfold Qle; simpl.
  rewrite !Z2Pos.id by lia. nia.
Qed.

Lemma on_progress_percent x q loaded total w :
  xhrs w !! x = Some q → is_Some (get (x_for q) w) →
  meta_of (x_for q) "percent" (on_progress x loaded total w)
  = VNum (progress_percent loaded total)
  ∧ xhrs (on_progress x loaded total w) = xhrs w
  ∧ is_Some (get (x_for q) (on_progress x loaded total w))
  ∧ meta_of (x_for q) "status" (on_progress x loaded total w)
    = meta_of (x_for q) "status" w.
Proof.
  intros Hx G. unfold on_progress. rewrite Hx. autorewrite with store.
  split; [by apply meta_of_assign_eq|]. split; [done|].
  split; [by apply is_Some_get_assign|]. by rewrite meta_of_assign_ne.
Qed.

Lemma meta_of_percent_handleChangeStatus P r r' w :
  hook_keeps_percent P →
  meta_of r "percent" (handleChangeStatus P r' w) = meta_of r "percent" w.
Proof.
  intros HP. unfold handleChangeStatus. repeat case_match; try done.
  autorewrite with store. rewrite meta_of_spread_None; [done|].
  rewrite lookup_delete_ne by done. eauto.
Qed.




(** * Further properties of the handlers *)

(** ** The one-shot closure *)

(** [triggerUpload] latches: a second call of the closure of a record
    changes nothing, whatever the first one did. *)
Theorem triggerUpload_idempotent P r w :
  triggerUpload P r (triggerUpload P r w) = triggerUpload P r w.
Proof.
  destruct (stage r w) as [[| | |[]]|] eqn:E;
    try (assert (triggerUpload P r w = w) as -> by (unfold triggerUpload; by rewrite E);
         unfold triggerUpload; by rewrite E).
  assert (stage r (triggerUpload P r w) = Some (Gate true)) as E'.
  { unfold triggerUpload. rewrite E.
    destruct (getUploadParams P); autorewrite with store;
      rewrite stage_set_stage, decide_True by done; by rewrite E. }
  unfold triggerUpload at 1. by rewrite E'.
Qed.

(** ** The collection [this._files] *)

Lemma files_step_exact P w e : _files (step P w e) = files_after P w e.
Proof.
  unfold files_after. pose proof (files_step P w e) as H.
  destruct (retains P w e) eqn:R; [done|].
  destruct e; simpl in *;
    try (unfold_handlers; repeat case_match; done).
  - unfold rejected in R. apply negb_false_iff in R. unfold_handlers.
    change (rejected_max_files P (set_heap ?h w)) with (rejected_max_files P w).
    destruct (rejected_file_type P file), (rejected_max_files P w); simpl in *;
      repeat case_match; done.
  - unfold componentWillUnmount.
    by destruct (id_componentWillUnmount_from (_files w) w) as [_ ->].
Qed.

Lemma length_heap_componentWillUnmount_from l w :
  length (heap (componentWillUnmount_from l w)) = length (heap w).
Proof.
  revert w. induction l as [|f l IH]; intros w; simpl; [done|].
  repeat case_match; try done. by rewrite IH.
Qed.

(** Records are made by [handleFile] only, one a call, and never
    dropped from the store. *)
Lemma length_heap_step P w e :
  length (heap (step P w e))
  = match e with Accept _ _ => S (length (heap w)) | _ => length (heap w) end.
Proof.
  destruct e; simpl;
    try (unfold_handlers; repeat case_match;
         unfold set_status, assign, spread, upd, set_stage; simpl;
         rewrite ?length_alter, ?length_app; simpl; lia).
  apply length_heap_componentWillUnmount_from.
Qed.

Lemma within_capacity_step P w e : within_capacity P w → within_capacity P (step P w e).
Proof.
  unfold within_capacity. intros H. rewrite files_step_exact. unfold files_after.
  destruct (retains P w e) eqn:R.
  - destruct e; try done. simpl in R. unfold rejected, rejected_max_files in R.
    apply negb_true_iff, orb_false_iff in R as [_ R]. apply N.leb_gt in R.
    rewrite length_app. simpl. lia.
  - destruct e; try done. case_match; [|done].
    assert (length (delete n (_files w)) ≤ length (_files w)); [|lia].
    apply sublist_length, sublist_delete.
Qed.

(** The collection never holds more than [maxFiles] records. *)
Theorem files_never_exceed_maxFiles P es :
  (N.of_nat (length (_files (run P init es))) ≤ maxFiles P)%N.
Proof.
  assert (∀ w, within_capacity P w → within_capacity P (run P w es)) as H.
  { induction es as [|e es IH]; intros w Hw; [done|].
    simpl. by apply IH, within_capacity_step. }
  apply H. unfold within_capacity. simpl. lia.
Qed.

Lemma Forall_sublist_of {A} (Q : A → Prop) (l1 l2 : list A) :
  l1 `sublist_of` l2 → Forall Q l2 → Forall Q l1.
Proof.
  rewrite !Forall_forall. intros Hl H x Hx. apply H. by eapply elem_of_sublist.
Qed.

Lemma StronglySorted_sublist {A} (R : relation A) (l1 l2 : list A) :
  l1 `sublist_of` l2 → StronglySorted R l2 → StronglySorted R l1.
Proof.
  induction 1 as [|x l1 l2 Hl IH|x l1 l2 Hl IH]; intros Hs; [done|..].
  - apply StronglySorted_cons in Hs as [Hx Hs]. apply StronglySorted_cons.
    split; [by eapply Forall_sublist_of | by apply IH].
  - apply StronglySorted_cons in Hs as [_ Hs]. by apply IH.
Qed.

Lemma StronglySorted_lt_NoDup (l : list nat) : StronglySorted lt l → NoDup l.
Proof.
  induction 1 as [|r l _ IH Hr]; constructor; [|done].
  intros Hin. eapply Forall_forall in Hr; [|done]. lia.
Qed.

Lemma in_insertion_order_step P w e :
  in_insertion_order w → in_insertion_order (step P w e).
Proof.
  intros [Hs Hb]. unfold in_insertion_order.
  rewrite files_step_exact, length_heap_step. unfold files_after.
  assert (∀ l : list nat, l `sublist_of` _files w →
            StronglySorted lt l ∧ Forall (λ r, r < length (heap w)) l) as Hsub.
  { intros l Hl. split.
    - by apply StronglySorted_sublist with (_files w).
    - by eapply Forall_sublist_of. }
  destruct (retains P w e) eqn:R.
  - destruct e; try done. split.
    + apply StronglySorted_app_2; [|done|repeat constructor].
      intros r1 r2 Hr1 ->%list_elem_of_singleton.
      by eapply Forall_forall in Hb.
    + apply Forall_app. split; [|repeat constructor; lia].
      eapply Forall_impl; [done|]. simpl. lia.
  - assert (∀ l, l `sublist_of` _files w →
              StronglySorted lt l
              ∧ Forall (λ r, r < match e with
                                 | Accept _ _ => S (length (heap w))
                                 | _ => length (heap w)
                                 end) l) as Hsub'.
    { intros l [? ?]%Hsub. split; [done|].
      eapply Forall_impl; [done|]. simpl. intros. destruct e; lia. }
    destruct e; try (by apply Hsub').
    case_match; apply Hsub'; [apply sublist_delete | done].
Qed.

Lemma in_insertion_order_run P es w :
  in_insertion_order w → in_insertion_order (run P w es).
Proof.
  revert w. induction es as [|e es IH]; intros w Hw; [done|].
  simpl. by apply IH, in_insertion_order_step.
Qed.

Lemma NoDup_files_run P es : NoDup (_files (run P init es)).
Proof.
  destruct (in_insertion_order_run P es init) as [Hs _].
  { split; constructor. }
  by apply StronglySorted_lt_NoDup.
Qed.

(** The collection lists its records in the order they were accepted:
    the references, which are handed out in allocation order, increase
    along [this._files]; so no record is listed twice, and every listed
    record exists. *)
Theorem files_in_insertion_order P es :
  let w := run P init es in
  StronglySorted lt (_files w)
  ∧ NoDup (_files w)
  ∧ ∀ r, r ∈ _files w → is_Some (get r w).
Proof.
  intros w.
  destruct (in_insertion_order_run P es init) as [Hs Hb].
  { split; constructor. }
  split; [done|]. split.
  - by apply StronglySorted_lt_NoDup.
  - intros r Hr. eapply Forall_forall in Hb; [|done].
    unfold get. rewrite fmap_is_Some. by apply lookup_lt_is_Some.
Qed.

Lemma files_in_insertion_order_witness :
  let w := run Scenario.uploading init
             [Accept Scenario.a_txt 1; Accept Scenario.b_txt 2; Remove 0;
              Accept Scenario.a_txt 3] in
  _files w = [1; 2] ∧ StronglySorted lt (_files w) ∧ is_Some (get 2 w).
Proof.
  intros w.
  destruct (files_in_insertion_order Scenario.uploading
              [Accept Scenario.a_txt 1; Accept Scenario.b_txt 2; Remove 0;
               Accept Scenario.a_txt 3]) as (S & _ & G).
  assert (_files w = [1; 2]) as E by (vm_compute; reflexivity).
  split; [done|]. split; [exact S|].
  apply G. fold w. rewrite E. apply list_elem_of_further, list_elem_of_here.
Defined.

(** ** Removal *)

Lemma findIndex_Some w v l i :
  findIndex w v l = Some i →
  ∃ f, l !! i = Some f ∧ strict_eqb (meta_of f "id" w) v = true.
Proof.
  revert i. induction l as [|f l IH]; intros i; simpl; [done|].
  destruct (strict_eqb _ _) eqn:E.
  - intros [= <-]. eauto.
  - destruct (findIndex w v l) as [j|]; simpl; [|done].
    intros [= <-]. by apply IH.
Qed.

Lemma findIndex_None w v l :
  findIndex w v l = None ↔ ∀ f, f ∈ l → strict_eqb (meta_of f "id" w) v = false.
Proof.
  induction l as [|f l IH]; simpl.
  - split; [by intros _ f ?%elem_of_nil | done].
  - destruct (strict_eqb (meta_of f "id" w) v) eqn:E.
    + split; [done|]. intros H. rewrite H in E; [done | apply list_elem_of_here].
    + destruct (findIndex w v l) as [j|]; simpl.
      * split; [done|]. intros H.
        assert (Some j = None); [|done].
        apply IH. intros f' Hf'. apply H. by apply list_elem_of_further.
      * split; [|done]. intros _ f' [->|Hf']%elem_of_cons; [done|].
        by apply IH.
Qed.

(** The first match of [findIndex], when exactly one element matches. *)
Lemma findIndex_unique w v l i r :
  l !! i = Some r →
  (∀ j f, l !! j = Some f → strict_eqb (meta_of f "id" w) v = true → j = i) →
  strict_eqb (meta_of r "id" w) v = true →
  findIndex w v l = Some i.
Proof.
  intros Hi Hu Hr.
  destruct (findIndex w v l) as [j|] eqn:E.
  - apply findIndex_Some in E as (f & Hj & Hf). f_equal. eauto.
  - rewrite findIndex_None in E. rewrite E in Hr; [done|].
    by eapply list_elem_of_lookup_2.
Qed.

Lemma findIndex_same_ids w w' v l :
  (∀ f, meta_of f "id" w' = meta_of f "id" w) →
  findIndex w' v l = findIndex w v l.
Proof. intros H. induction l as [|f l IH]; simpl; [done|]. by rewrite H, IH. Qed.

Lemma strict_eqb_num_of_nat a b :
  strict_eqb (VNum (num_of_nat a)) (VNum (num_of_nat b)) = bool_decide (a = b).
Proof.
  simpl. unfold Qeq_bool, inject_Z; simpl. case_bool_decide as E.
  - subst. apply Z.eqb_refl.
  - apply Z.eqb_neq. lia.
Qed.

(** [===] against a counter value picks out that counter value. *)
Lemma strict_eqb_num_of_nat_trans a b v :
  strict_eqb (VNum (num_of_nat a)) v = true →
  strict_eqb (VNum (num_of_nat b)) v = true → a = b.
Proof.
  destruct v as [|[q| |]| | |]; simpl; try done.
  intros Ha%Qeq_bool_eq Hb%Qeq_bool_eq.
  rewrite <- Hb in Ha. unfold Qeq, inject_Z in Ha; simpl in Ha. lia.
Qed.

(** In a reachable world whose outside metadata kept [id] alone, the
    listed records carry pairwise different counter values. *)
Lemma retained_ids_run P es :
  hook_keeps_id P → Forall event_keeps_id es →
  let w := run P init es in
  ∃ num : nat → nat,
    (∀ r, r ∈ _files w → meta_of r "id" w = VNum (num_of_nat (num r)))
    ∧ (∀ r r', r ∈ _files w → r' ∈ _files w → num r = num r' → r = r').
Proof.
  intros HP Hes w.
  destruct (registry_run P es [] init HP Hes registry_init) as (H & _ & (J1 & J2 & J3) & _).
  fold w in J1, J3.
  assert (∀ r, r ∈ _files w → ∃ n, meta_of r "id" w = VNum (num_of_nat n) ∧ (r, n) ∈ H) as Hn.
  { intros r Hr. destruct (J3 r Hr) as [n Hn]. exists n. split; [by apply J1 | done]. }
  exists (λ r, match meta_of r "id" w with
               | VNum (Fin q) => Z.to_nat (Qnum q)
               | _ => 0
               end).
  split.
  - intros r Hr. destruct (Hn r Hr) as (n & -> & _).
    simpl. by rewrite Nat2Z.id.
  - intros r r' Hr Hr'.
    destruct (Hn r Hr) as (n & -> & Hin), (Hn r' Hr') as (n' & -> & Hin').
    simpl. rewrite !Nat2Z.id. intros <-.
    destruct (decide (r = r')) as [|Hne]; [done|].
    by destruct (J2 r n r' n Hin Hin' Hne).
Qed.

(** [handleRemove] on a listed record takes exactly that record out of
    the collection: the records before it and after it stay, in their
    order; the record itself and all others are left as they are in the
    store, and [onRemove] is called when it is configured. *)
Theorem handleRemove_takes_out_the_record P es r :
  hook_keeps_id P → Forall event_keeps_id es →
  let w := run P init es in
  r ∈ _files w →
  ∃ l1 l2,
    _files w = (l1 ++ r :: l2)%list
    ∧ _files (handleRemove P r w) = (l1 ++ l2)%list
    ∧ (r ∉ l1) ∧ (r ∉ l2)
    ∧ heap (handleRemove P r w) = heap w
    ∧ log (handleRemove P r w) = if onRemove P then Removed r :: log w else log w.
Proof.
  intros HP Hes w Hr.
  destruct (retained_ids_run P es HP Hes) as (num & Hnum & Hinj). fold w in Hnum, Hinj.
  pose proof (NoDup_files_run P es) as Hnd. fold w in Hnd.
  apply list_elem_of_lookup in Hr as [i Hi].
  assert (findIndex w (meta_of r "id" w) (_files w) = Some i) as Hfind.
  { apply findIndex_unique with r; [done | |].
    - intros j f Hj Hf.
      assert (f ∈ _files w) as Hfin by (by eapply list_elem_of_lookup_2).
      assert (r ∈ _files w) as Hrin by (by eapply list_elem_of_lookup_2).
      rewrite (Hnum f Hfin), (Hnum r Hrin), strict_eqb_num_of_nat in Hf.
      apply bool_decide_eq_true in Hf. apply Hinj in Hf; [|done..]. subst f.
      by eapply NoDup_lookup.
    - assert (r ∈ _files w) as Hrin by (by eapply list_elem_of_lookup_2).
      rewrite (Hnum r Hrin), strict_eqb_num_of_nat. by apply bool_decide_eq_true. }
  exists (take i (_files w)), (drop (S i) (_files w)).
  pose proof (take_drop_middle _ _ _ Hi) as Hmid.
  split; [done|]. unfold handleRemove. rewrite Hfind.
  split; [destruct (onRemove P); simpl; apply delete_take_drop|].
  rewrite <- Hmid in Hnd. apply NoDup_app in Hnd as (_ & Hnd1 & Hnd2).
  apply NoDup_cons in Hnd2 as [Hnd2 _].
  split; [intros Hin; apply (Hnd1 r Hin), list_elem_of_here|].
  split; [done|]. split; by destruct (onRemove P).
Qed.

Lemma handleRemove_takes_out_the_record_witness :
  let P := Scenario.uploading in
  let es := [Accept Scenario.a_txt 1; Accept Scenario.b_txt 2] in
  let w := run P init es in
  ∃ l1 l2,
    _files w = (l1 ++ 0 :: l2)%list
    ∧ _files (handleRemove P 0 w) = (l1 ++ l2)%list
    ∧ (0 ∉ l1) ∧ (0 ∉ l2)
    ∧ heap (handleRemove P 0 w) = heap w
    ∧ log (handleRemove P 0 w) = if onRemove P then Removed 0 :: log w else log w.
Proof.
  intros P es w.
  apply (handleRemove_takes_out_the_record P es 0).
  - intros hook o s m H. discriminate H.
  - repeat constructor.
  - assert (_files (run P init es) = [0; 1]) as -> by (vm_compute; reflexivity).
    apply list_elem_of_here.
Defined.

(** [handleRemove] tolerates a second call: on any record, removing
    again changes nothing, and [onRemove] is not called again. *)
Theorem handleRemove_twice P es r :
  hook_keeps_id P → Forall event_keeps_id es →
  let w := run P init es in
  handleRemove P r (handleRemove P r w) = handleRemove P r w.
Proof.
  intros HP Hes w.
  destruct (retained_ids_run P es HP Hes) as (num & Hnum & Hinj). fold w in Hnum, Hinj.
  pose proof (NoDup_files_run P es) as Hnd. fold w in Hnd.
  destruct (findIndex w (meta_of r "id" w) (_files w)) as [i|] eqn:Hfind; last first.
  { unfold handleRemove. rewrite Hfind. unfold handleRemove. by rewrite Hfind. }
  set (w1 := handleRemove P r w).
  assert (_files w1 = delete i (_files w)) as F1
    by (unfold w1, handleRemove; rewrite Hfind; by destruct (onRemove P)).
  assert (∀ f k, meta_of f k w1 = meta_of f k w) as M1
    by (intros f k; unfold w1, handleRemove; rewrite Hfind; by destruct (onRemove P)).
  assert (findIndex w1 (meta_of r "id" w1) (_files w1) = None) as Hnone.
  { rewrite M1, F1, (findIndex_same_ids w w1) by (intros; apply M1).
    apply findIndex_None. intros f Hf.
    apply findIndex_Some in Hfind as (f0 & Hi & Hf0).
    assert (f0 ∈ _files w) as Hf0in by (by eapply list_elem_of_lookup_2).
    assert (f ∈ _files w) as Hfin by (eapply elem_of_sublist; [done | apply sublist_delete]).
    destruct (strict_eqb (meta_of f "id" w) (meta_of r "id" w)) eqn:E; [|done].
    exfalso. rewrite (Hnum f Hfin) in E. rewrite (Hnum f0 Hf0in) in Hf0.
    pose proof (strict_eqb_num_of_nat_trans _ _ _ E Hf0) as Heq.
    apply Hinj in Heq; [|done..]. subst f0.
    pose proof (take_drop_middle _ _ _ Hi) as Hmid.
    rewrite delete_take_drop in Hf. rewrite <- Hmid in Hnd.
    apply NoDup_app in Hnd as (_ & Hnd1 & Hnd2). apply NoDup_cons in Hnd2 as [Hnd2 _].
    apply elem_of_app in Hf as [Hf|Hf]; [|done].
    apply (Hnd1 f Hf). apply list_elem_of_here. }
  unfold handleRemove at 1. fold w1. by rewrite Hnone.
Qed.

Lemma handleRemove_twice_witness :
  let P := Scenario.uploading in
  let w := run P init [Accept Scenario.a_txt 1; Accept Scenario.b_txt 2] in
  handleRemove P 1 (handleRemove P 1 w) = handleRemove P 1 w.
Proof.
  intros P w.
  apply (handleRemove_twice P [Accept Scenario.a_txt 1; Accept Scenario.b_txt 2] 1).
  - intros hook o s m H. discriminate H.
  - repeat constructor.
Defined.

(** ** Records keep their file *)

Lemma keeps_files_refl w : keeps_files w w.
Proof. intros r o ?. eauto. Qed.

Lemma keeps_files_trans w1 w2 w3 : keeps_files w1 w2 → keeps_files w2 w3 → keeps_files w1 w3.
Proof.
  intros H1 H2 r o G. destruct (H1 r o G) as (o' & G' & E').
  destruct (H2 r o' G') as (o'' & G'' & E''). exists o''. split; [done | congruence].
Qed.

Lemma keeps_files_same_heap w w' : heap w' = heap w → keeps_files w w'.
Proof. intros E r o G. exists o. unfold get in *. by rewrite E. Qed.

Lemma keeps_files_upd r f w :
  (∀ o, fw_file (f o) = fw_file o) → keeps_files w (upd r f w).
Proof.
  intros Hf r' o G. rewrite get_upd. case_decide; rewrite G; simpl; eauto.
Qed.

Lemma keeps_files_set_stage r s w : keeps_files w (set_stage r s w).
Proof. intros r' o G. rewrite get_set_stage. eauto. Qed.

Lemma keeps_files_alloc c w : keeps_files w (set_heap (heap w ++ [c]) w).
Proof. intros r o G. rewrite get_alloc_old by eauto. eauto. Qed.

Lemma keeps_files_emit w o w' : keeps_files w w' → keeps_files w (emit o w').
Proof. intros H. eapply keeps_files_trans; [done | by apply keeps_files_same_heap]. Qed.
Lemma keeps_files_forceUpdate w w' : keeps_files w w' → keeps_files w (forceUpdate w').
Proof. intros H. eapply keeps_files_trans; [done | by apply keeps_files_same_heap]. Qed.
Lemma keeps_files_set_id w n w' : keeps_files w w' → keeps_files w (set_id n w').
Proof. intros H. eapply keeps_files_trans; [done | by apply keeps_files_same_heap]. Qed.
Lemma keeps_files_set_files w l w' : keeps_files w w' → keeps_files w (set_files l w').
Proof. intros H. eapply keeps_files_trans; [done | by apply keeps_files_same_heap]. Qed.
Lemma keeps_files_set_uploads w u w' : keeps_files w w' → keeps_files w (set_uploads u w').
Proof. intros H. eapply keeps_files_trans; [done | by apply keeps_files_same_heap]. Qed.
Lemma keeps_files_set_xhrs w x w' : keeps_files w w' → keeps_files w (set_xhrs x w').
Proof. intros H. eapply keeps_files_trans; [done | by apply keeps_files_same_heap]. Qed.
Lemma keeps_files_set_urls w u w' : keeps_files w w' → keeps_files w (set_urls u w').
Proof. intros H. eapply keeps_files_trans; [done | by apply keeps_files_same_heap]. Qed.
Lemma keeps_files_abort w x w' : keeps_files w w' → keeps_files w (abort x w').
Proof. intros H. eapply keeps_files_trans; [done | by apply keeps_files_same_heap]. Qed.
Lemma keeps_files_createObjectURL w w' : keeps_files w w' → keeps_files w (createObjectURL w').
Proof. intros H. eapply keeps_files_trans; [done | by apply keeps_files_same_heap]. Qed.
Lemma keeps_files_revokeObjectURL w u w' : keeps_files w w' → keeps_files w (revokeObjectURL u w').
Proof. intros H. eapply keeps_files_trans; [done | by apply keeps_files_same_heap]. Qed.

Lemma keeps_files_then_upd w r f w' :
  (∀ o, fw_file (f o) = fw_file o) → keeps_files w w' → keeps_files w (upd r f w').
Proof. intros Hf H. eapply keeps_files_trans; [done | by apply keeps_files_upd]. Qed.

Lemma keeps_files_then_assign w r k v w' :
  keeps_files w w' → keeps_files w (assign r k v w').
Proof. by apply keeps_files_then_upd. Qed.

Lemma keeps_files_then_spread w r m w' :
  keeps_files w w' → keeps_files w (spread r m w').
Proof. by apply keeps_files_then_upd. Qed.

Lemma keeps_files_then_set_status w r s w' :
  keeps_files w w' → keeps_files w (set_status r s w').
Proof. by apply keeps_files_then_upd. Qed.

Lemma keeps_files_then_set_stage w r s w' :
  keeps_files w w' → keeps_files w (set_stage r s w').
Proof. intros H. eapply keeps_files_trans; [done | apply keeps_files_set_stage]. Qed.

Lemma keeps_files_then_alloc w c w' :
  keeps_files w w' → keeps_files w (set_heap (heap w' ++ [c]) w').
Proof. intros H. eapply keeps_files_trans; [done | apply keeps_files_alloc]. Qed.

Ltac keeps_files_head :=
  lazymatch goal with
  | |- keeps_files ?w ?w => apply keeps_files_refl
  | |- keeps_files _ (emit _ _) => apply keeps_files_emit
  | |- keeps_files _ (forceUpdate _) => apply keeps_files_forceUpdate
  | |- keeps_files _ (set_id _ _) => apply keeps_files_set_id
  | |- keeps_files _ (set_files _ _) => apply keeps_files_set_files
  | |- keeps_files _ (set_uploads _ _) => apply keeps_files_set_uploads
  | |- keeps_files _ (set_xhrs _ _) => apply keeps_files_set_xhrs
  | |- keeps_files _ (set_urls _ _) => apply keeps_files_set_urls
  | |- keeps_files _ (abort _ _) => apply keeps_files_abort
  | |- keeps_files _ (createObjectURL _) => apply keeps_files_createObjectURL
  | |- keeps_files _ (revokeObjectURL _ _) => apply keeps_files_revokeObjectURL
  | |- keeps_files _ (assign _ _ _ _) => apply keeps_files_then_assign
  | |- keeps_files _ (spread _ _ _) => apply keeps_files_then_spread
  | |- keeps_files _ (set_status _ _ _) => apply keeps_files_then_set_status
  | |- keeps_files _ (set_stage _ _ _) => apply keeps_files_then_set_stage
  | |- keeps_files _ (set_heap (heap _ ++ _) _) => apply keeps_files_then_alloc
  | |- keeps_files _ (upd _ _ _) => apply keeps_files_then_upd; [done|]
  end.

Ltac keeps_files := repeat keeps_files_head.

Lemma keeps_files_then_handleChangeStatus P w r w' :
  keeps_files w w' → keeps_files w (handleChangeStatus P r w').
Proof.
  intros H. unfold handleChangeStatus. repeat case_match; keeps_files; done.
Qed.

Lemma keeps_files_then_uploadFile P w r w' :
  keeps_files w w' → keeps_files w (uploadFile P r w').
Proof. intros H. unfold uploadFile. repeat case_match; keeps_files; done. Qed.

Ltac keeps_files_more :=
  repeat first
    [ keeps_files_head
    | lazymatch goal with
      | |- keeps_files _ (handleChangeStatus _ _ _) => apply keeps_files_then_handleChangeStatus
      | |- keeps_files _ (uploadFile _ _ _) => apply keeps_files_then_uploadFile
      end ].

Lemma keeps_files_componentWillUnmount_from l w :
  keeps_files w (componentWillUnmount_from l w).
Proof.
  revert w. induction l as [|f l IH]; intros w; simpl; [apply keeps_files_refl|].
  repeat case_match; try (by apply keeps_files_same_heap); try apply IH.
  eapply keeps_files_trans; [|apply IH]. by apply keeps_files_same_heap.
Qed.

Lemma keeps_files_step P w e : keeps_files w (step P w e).
Proof.
  destruct e; simpl;
    try (unfold handleFile, handleFile_resume, on_decoded, handleRestart, handleCancel,
           handleRemove, on_progress, on_readystatechange, uploadFile_resume,
           generatePreview, triggerUpload, generatePreview_image, generatePreview_audio,
           generatePreview_video, generatePreview_end, spread;
         repeat case_match; keeps_files_more).
  apply keeps_files_componentWillUnmount_from.
Qed.

Lemma get_new_record P file now w :
  fw_file <$> get (length (heap w)) (step P w (Accept file now)) = Some file.
Proof.
  assert (keeps_files
            (set_heap (heap w ++ [{| fwm := new_fileWithMeta file now (id w);
                                     pc := Stopped |}]) w)
            (handleFile P file now w)) as K.
  { unfold handleFile, generatePreview, generatePreview_image, generatePreview_audio,
      generatePreview_video, generatePreview_end.
    repeat case_match; keeps_files_more. }
  destruct (K (length (heap w)) _ (get_alloc_new _ w)) as (o'' & G'' & E'').
  change (step P w (Accept file now)) with (handleFile P file now w).
  rewrite G''. simpl. by rewrite E''.
Qed.

Lemma file_of_record_run P es r :
  fw_file <$> get r (run P init es) = accepted_files es !! r.
Proof.
  assert (∀ w, length (heap (run P w es)) = length (heap w) + length (accepted_files es)
               ∧ ∀ r, fw_file <$> get r (run P w es)
                      = if decide (r < length (heap w)) then fw_file <$> get r w
                        else accepted_files es !! (r - length (heap w))) as H.
  { induction es as [|e es IH]; intros w.
    - simpl. split; [lia|]. intros r'. case_decide; [done|].
      unfold get. rewrite lookup_ge_None_2 by lia. by rewrite lookup_nil.
    - destruct (IH (step P w e)) as [IH1 IH2]. simpl.
      pose proof (length_heap_step P w e) as L.
      split.
      + rewrite IH1, L. destruct e; simpl; lia.
      + intros r'. rewrite IH2, L.
        destruct (decide (r' < length (heap w))) as [Hlt|Hge].
        * rewrite decide_True by (destruct e; lia).
          assert (is_Some (get r' w)) as [o G].
          { unfold get. rewrite fmap_is_Some. by apply lookup_lt_is_Some. }
          destruct (keeps_files_step P w e r' o G) as (o' & -> & E).
          rewrite G. simpl. by rewrite E.
        * destruct e; simpl; rewrite ?decide_False by lia; try done.
          destruct (decide (r' = length (heap w))) as [->|Hne].
          -- rewrite decide_True by lia. rewrite Nat.sub_diag. simpl.
             apply (get_new_record P file now w).
          -- rewrite decide_False by lia.
             replace (r' - length (heap w)) with (S (r' - S (length (heap w)))) by lia.
             done. }
  destruct (H init) as [_ ->]. simpl. by rewrite Nat.sub_0_r.
Qed.

(** The store along a run: the [r]-th record made holds the file of the
    [r]-th call of [handleFile], for good; records are made by
    [handleFile] only, also for the files it rejects. *)
Theorem records_keep_their_file P es r :
  fw_file <$> get r (run P init es) = accepted_files es !! r.
Proof. apply file_of_record_run. Qed.

(** ** The requests of a run *)

Lemma same_request_refl q : same_request q q.
Proof. by repeat split. Qed.

Lemma same_request_trans q1 q2 q3 :
  same_request q1 q2 → same_request q2 q3 → same_request q1 q3.
Proof.
  intros (?&?&?&?&?&?&?) (?&?&?&?&?&?&?). repeat split; try congruence. auto.
Qed.

(** [xhr.abort()] marks one request and leaves the others. *)
Lemma xhrs_abort_lookup x x' w :
  xhrs (abort x w) !! x'
  = if decide (x' = x)
    then (λ q, {| x_for := x_for q; x_method := x_method q; x_url := x_url q;
                  x_headers := x_headers q; x_form := x_form q;
                  x_sent := x_sent q; x_aborted := true |}) <$> xhrs w !! x'
    else xhrs w !! x'.
Proof.
  unfold abort; simpl. case_decide as E.
  - subst. by rewrite list_lookup_alter_eq.
  - by rewrite list_lookup_alter_ne.
Qed.

Lemma xhrs_abort_old x w x' q :
  xhrs w !! x' = Some q → ∃ q', xhrs (abort x w) !! x' = Some q' ∧ same_request q q'.
Proof.
  intros H. rewrite xhrs_abort_lookup, H. case_decide; simpl.
  - eexists. split; [done|]. by repeat split.
  - eauto using same_request_refl.
Qed.

Lemma xhrs_componentWillUnmount_from_old l w x q :
  xhrs w !! x = Some q →
  ∃ q', xhrs (componentWillUnmount_from l w) !! x = Some q' ∧ same_request q q'.
Proof.
  revert w q. induction l as [|f l IH]; intros w q H; simpl.
  { eauto using same_request_refl. }
  repeat case_match; try (by eauto using same_request_refl); try (by apply IH).
  destruct (xhrs_abort_old n w x q H) as (q1 & Hq1 & S1).
  destruct (IH _ _ Hq1) as (q2 & Hq2 & S2).
  eauto using same_request_trans.
Qed.

(** What [uploadFile] does to the requests when it resumes: nothing, or
    it appends the request built from the provider's answer. *)
Lemma xhrs_uploadFile_resume P k params w :
  xhrs (uploadFile_resume P k params w) = xhrs w
  ∨ ∃ r o,
      uploads w !! k = Some (r, true) ∧ get r w = Some o
      ∧ or_default "" (params ≫= p_url) ≠ ""
      ∧ xhrs (uploadFile_resume P k params w)
        = (xhrs w ++
           [{| x_for := r;
               x_method := or_default "POST" (params ≫= p_method);
               x_url := or_default "" (params ≫= p_url);
               x_headers := ("X-Requested-With", "XMLHttpRequest")
                            :: or_default [] (params ≫= p_headers);
               x_form := map (λ kv, (kv.1, Field kv.2)) (or_default [] (params ≫= p_fields))
                         ++ [("file", Blob (fw_file o))];
               x_sent := true; x_aborted := false |}])%list.
Proof.
  unfold uploadFile_resume.
  destruct (uploads w !! k) as [[r []]|] eqn:Hk; [|left; done..].
  cbv zeta. change (get r (set_uploads ?u w)) with (get r w).
  destruct (String.eqb_spec (or_default "" (params ≫= p_url)) "") as [|Hne].
  { left. unfold handleChangeStatus. repeat case_match; done. }
  destruct (get r w) as [o|] eqn:G; [|left; done].
  right. exists r, o. done.
Qed.

Lemma xhrs_step_old P w e x q :
  xhrs w !! x = Some q →
  ∃ q', xhrs (step P w e) !! x = Some q' ∧ same_request q q'.
Proof.
  intros H.
  assert (xhrs (step P w e) = xhrs w →
          ∃ q', xhrs (step P w e) !! x = Some q' ∧ same_request q q') as Same.
  { intros ->. eauto using same_request_refl. }
  destruct e; simpl in *;
    try (apply Same; unfold_handlers; repeat case_match; done).
  - destruct (xhrs_uploadFile_resume P k params w) as [E|(r & o & _ & _ & _ & E)].
    + by apply Same.
    + rewrite E, lookup_app_l by (by eapply lookup_lt_Some).
      eauto using same_request_refl.
  - unfold handleCancel. repeat case_match; try (by eauto using same_request_refl);
      by apply xhrs_abort_old.
  - by apply xhrs_componentWillUnmount_from_old.
Qed.

(** A request that appears in a task was made by [uploadFile] in that
    task, for the record that now holds it. *)
Lemma xhrs_step_new P w e x q' :
  xhrs (step P w e) !! x = Some q' → length (xhrs w) ≤ x →
  x = length (xhrs w)
  ∧ x_sent q' = true ∧ x_url q' ≠ ""
  ∧ head (x_headers q') = Some ("X-Requested-With", "XMLHttpRequest")
  ∧ (∃ o, get (x_for q') w = Some o ∧ last (x_form q') = Some ("file", Blob (fw_file o)))
  ∧ xhr_of (x_for q') (step P w e) = Some x.
Proof.
  intros H Hge.
  assert (xhrs (step P w e) !! x = None ∨ ∃ k params, e = ParamsResolved k params)
    as [E|(k & params & ->)].
  { destruct e; try (by right; eauto); left.
    all: try (assert (xhrs (step P w _) = xhrs w) as ->
                by (simpl; unfold_handlers; repeat case_match; done);
              by apply lookup_ge_None_2).
    - apply lookup_ge_None_2. simpl. unfold handleCancel.
      repeat case_match; simpl; rewrite ?length_alter; done.
    - apply lookup_ge_None_2. simpl. unfold componentWillUnmount.
      by rewrite length_xhrs_componentWillUnmount_from. }
  { by rewrite E in H. }
  simpl in *.
  destruct (xhrs_uploadFile_resume P k params w) as [E|(r & o & Hk & G & Hne & E)].
  { rewrite E in H. apply lookup_lt_Some in H. lia. }
  rewrite E in H. apply lookup_app_Some in H as [H|[_ H]].
  { apply lookup_lt_Some in H. lia. }
  apply list_lookup_singleton_Some in H as [Hx <-]. simpl.
  split; [lia|]. split; [done|]. split; [done|]. split; [done|].
  split; [exists o; split; [done|]; by rewrite last_snoc|].
  destruct (xhr_of_uploadFile_resume P k params w)
    as [[E1 _]|(r0 & q & Hk' & _ & _ & _ & _ & E2)].
  - rewrite E1 in E. apply (f_equal length) in E. rewrite length_app in E. simpl in E. lia.
  - rewrite Hk in Hk'. simplify_eq. rewrite E2, decide_True by done. f_equal. lia.
Qed.

Lemma requests_wf_step P w e :
  handles_exist w → requests_wf w → requests_wf (step P w e).
Proof.
  intros Hex Hwf x q' Hx.
  destruct (decide (x < length (xhrs w))) as [Hlt|Hge].
  - apply lookup_lt_is_Some in Hlt as [q Hq].
    destruct (xhrs_step_old P w e x q Hq) as (q'' & Hq'' & (E1 & _ & E3 & E4 & E5 & E6 & _)).
    rewrite Hx in Hq''. simplify_eq.
    destruct (Hwf x q Hq) as (W1 & W2 & W3 & (o & G & W4) & (x' & W5 & W6)).
    rewrite E1, E3, E4, E5, E6. repeat split; try done.
    + destruct (keeps_files_step P w e _ o G) as (o' & G' & Ef).
      exists o'. split; [done|]. by rewrite Ef.
    + assert ((∃ k params, e = ParamsResolved k params)
              ∨ ∀ k params, e ≠ ParamsResolved k params)
        as [(k & params & ->)|Hne] by (destruct e; eauto).
      * simpl.
        destruct (xhr_of_uploadFile_resume P k params w)
          as [[_ E2]|(r0 & q0 & _ & _ & _ & _ & _ & E2)]; rewrite E2.
        -- eauto.
        -- case_decide; [|eauto]. eexists. split; [done|].
           apply lookup_lt_Some in Hq. lia.
      * rewrite xhr_of_step_other by done. eauto.
  - destruct (xhrs_step_new P w e x q' Hx) as (-> & W1 & W2 & W3 & (o & G & W4) & W5);
      [lia|].
    repeat split; try done.
    + destruct (keeps_files_step P w e _ o G) as (o' & G' & Ef).
      exists o'. split; [done|]. by rewrite Ef.
    + eauto.
Qed.

Lemma handles_bound_step P w e : handles_bound w → handles_bound (step P w e).
Proof.
  intros Hb r x Hx.
  assert (xhr_of r w = Some x ∨ length (xhrs w) ≤ x ∧ xhr_of r w ≠ Some x) as [Hold|[Hge Hnew]].
  { destruct (decide (xhr_of r w = Some x)); [by left|]. right. split; [|done].
    assert ((∃ k params, e = ParamsResolved k params)
            ∨ ∀ k params, e ≠ ParamsResolved k params)
      as [(k & params & ->)|Hne] by (destruct e; eauto).
    - simpl in Hx.
      destruct (xhr_of_uploadFile_resume P k params w)
        as [[_ E2]|(r0 & q0 & _ & _ & _ & _ & _ & E2)]; rewrite E2 in Hx; [done|].
      case_decide; [|done]. simplify_eq. lia.
    - by rewrite xhr_of_step_other in Hx. }
  - destruct (Hb r x Hold) as (q & Hq & Hfor).
    destruct (xhrs_step_old P w e x q Hq) as (q' & Hq' & (E1 & _)).
    exists q'. split; [done|]. congruence.
  - assert (is_Some (xhrs (step P w e) !! x)) as [q' Hq'].
    { apply lookup_lt_is_Some.
      assert ((∃ k params, e = ParamsResolved k params)
              ∨ ∀ k params, e ≠ ParamsResolved k params)
        as [(k & params & ->)|Hne] by (destruct e; eauto).
      - simpl in *.
        destruct (xhr_of_uploadFile_resume P k params w)
          as [[_ E2]|(r0 & q0 & _ & E1 & _ & _ & _ & E2)]; rewrite E2 in Hx; [done|].
        case_decide; [|done]. simplify_eq. rewrite E1, length_app. simpl. lia.
      - by rewrite xhr_of_step_other in Hx. }
    destruct (xhrs_step_new P w e x q' Hq' Hge) as (-> & _ & _ & _ & _ & W5).
    exists q'. split; [done|].
    assert ((∃ k params, e = ParamsResolved k params)
            ∨ ∀ k params, e ≠ ParamsResolved k params)
      as [(k & params & ->)|Hne] by (destruct e; eauto).
    + simpl in *.
      destruct (xhr_of_uploadFile_resume P k params w)
        as [[E1 E2]|(r0 & q0 & _ & E1 & Hfor & _ & _ & E2)].
      * rewrite E1 in Hq'. apply lookup_lt_Some in Hq'. lia.
      * rewrite E2 in Hx. case_decide; [|done]. subst r.
        rewrite E1, lookup_app_r, Nat.sub_diag in Hq' by done. by simplify_eq/=.
    + by rewrite xhr_of_step_other in Hx.
Qed.

Lemma requests_run P es :
  handles_exist (run P init es) ∧ requests_wf (run P init es)
  ∧ handles_bound (run P init es).
Proof.
  assert (∀ w, handles_exist w ∧ requests_wf w ∧ handles_bound w →
               handles_exist (run P w es) ∧ requests_wf (run P w es)
               ∧ handles_bound (run P w es)) as H.
  { induction es as [|e es IH]; intros w (H1 & H2 & H3); [done|].
    simpl. apply IH. split; [by apply handles_exist_step|].
    split; [by apply requests_wf_step | by apply handles_bound_step]. }
  apply H. split; [apply handles_exist_init|]. split.
  - intros x q Hq. done.
  - intros r x Hx. done.
Qed.


(** The [xhr] of a record is a request made for that record, and it is
    the newest one: every request made for the record is that one or an
    earlier one.  So a restart replaces the handle and an older request
    never comes back. *)
Theorem record_holds_its_newest_request P es :
  let w := run P init es in
  (∀ r x, xhr_of r w = Some x → ∃ q, xhrs w !! x = Some q ∧ x_for q = r)
  ∧ (∀ x q, xhrs w !! x = Some q → ∃ x', xhr_of (x_for q) w = Some x' ∧ x ≤ x').
Proof.
  intros w. destruct (requests_run P es) as (_ & Hwf & Hb). split; [done|].
  intros x q Hq. by destruct (Hwf x q Hq) as (_ & _ & _ & _ & ?).
Qed.


Lemma record_holds_its_newest_request_witness :
  let w := run Scenario.uploading init
             [Accept Scenario.a_txt 1; PreviewDone 0;
              ParamsResolved 0 (Some Scenario.to_host); Restart 0;
              ParamsResolved 1 (Some Scenario.to_host)] in
  xhr_of 0 w = Some 1
  ∧ (∃ q, xhrs w !! 1 = Some q ∧ x_for q = 0)
  ∧ ∀ x q, xhrs w !! x = Some q → ∃ x', xhr_of (x_for q) w = Some x' ∧ x ≤ x'.
Proof.
  intros w.
  destruct (record_holds_its_newest_request Scenario.uploading
              [Accept Scenario.a_txt 1; PreviewDone 0;
               ParamsResolved 0 (Some Scenario.to_host); Restart 0;
               ParamsResolved 1 (Some Scenario.to_host)]) as [A B].
  assert (xhr_of 0 w = Some 1) as E by (vm_compute; reflexivity).
  split; [done|]. split; [|exact B]. apply A. exact E.
Defined.

(** ** Cancelling *)


(** ** What [uploadFile] and its listeners leave behind *)



Lemma meta_of_percent_set_status r r' s w :
  meta_of r "percent" (set_status r' s w) = meta_of r "percent" w.
Proof. by apply meta_of_assign_ne. Qed.




(** ** Disposal, when every handle is attached *)

Lemma strict_eqb_VStr v s : strict_eqb v (VStr s) = true → v = VStr s.
Proof. destruct v; simpl; try done. by intros ->%String.eqb_eq. Qed.

Lemma uploading_handle_abort x0 w l x :
  uploading_handle (abort x0 w) l x = uploading_handle w l x.
Proof. done. Qed.

Lemma aborted_aborted q : aborted (aborted q) = aborted q.
Proof. done. Qed.

Lemma componentWillUnmount_from_spec l w :
  (∀ r, r ∈ l → meta_of r "status" w = VStr "uploading" → is_Some (xhr_of r w)) →
  let w' := componentWillUnmount_from l w in
  heap w' = heap w ∧ log w' = log w
  ∧ ∀ x, xhrs w' !! x
         = if uploading_handle w l x then aborted <$> xhrs w !! x else xhrs w !! x.
Proof.
  revert w. induction l as [|f l IH]; intros w Hl; simpl; [done|].
  destruct (strict_eqb (meta_of f "status" w) (VStr "uploading")) eqn:E; simpl.
  - destruct (Hl f) as [x0 Hx0]; [apply list_elem_of_here | by apply strict_eqb_VStr|].
    rewrite Hx0.
    destruct (IH (abort x0 w)) as (H1 & H2 & H3).
    { intros r Hr Hs. apply Hl; [by apply list_elem_of_further | done]. }
    split; [done|]. split; [done|]. intros x.
    rewrite H3, uploading_handle_abort.
    change (xhrs (abort x0 w) !! x)
      with (alter aborted x0 (xhrs w) !! x).
    destruct (decide (x = x0)) as [->|Hne].
    + rewrite list_lookup_alter_eq, bool_decide_eq_true_2 by done. simpl.
      destruct (uploading_handle w l x0), (xhrs w !! x0); done.
    + rewrite list_lookup_alter_ne by done.
      rewrite bool_decide_eq_false_2 by congruence. done.
  - apply IH. intros r Hr Hs. apply Hl; [by apply list_elem_of_further | done].
Qed.



(** ** What [handleFile] decides *)

Lemma not_listed_step P w e r :
  r < length (heap w) → r ∉ _files w → r ∉ _files (step P w e).
Proof.
  intros Hr Hn. rewrite files_step_exact. unfold files_after.
  destruct (retains P w e).
  - intros [?|Hin]%elem_of_app; [done|]. apply list_elem_of_singleton in Hin. lia.
  - destruct e; try done. case_match; [|done].
    intros Hin. apply Hn. eapply elem_of_sublist; [done | apply sublist_delete].
Qed.

Lemma not_listed_run P es w r :
  r < length (heap w) → r ∉ _files w → r ∉ _files (run P w es).
Proof.
  revert w. induction es as [|e es IH]; intros w Hr Hn; [done|].
  simpl. apply IH; [|by apply not_listed_step].
  pose proof (length_heap_step P w e). destruct e; lia.
Qed.

(** [Stopped] is final: no task moves the activation of a record whose
    [handleFile] has returned early. *)
Lemma stage_step_stopped P w e r :
  stage r w = Some Stopped → stage r (step P w e) = Some Stopped.
Proof.
  intros H. rewrite <- H. destruct e; simpl.
  - apply stage_handleFile. rewrite H. eauto.
  - destruct (decide (r = r0)) as [->|]; [|by apply stage_on_decoded].
    unfold on_decoded. by rewrite H.
  - done.
  - apply stage_handleFile_resume. right. by rewrite H.
  - destruct (get _ w) as [o|]; [|done]. destruct (fw_triggerUpload o); [|done].
    apply stage_triggerUpload. right. by rewrite H.
  - apply stage_uploadFile_resume.
  - repeat case_match; done.
  - apply stage_on_progress.
  - apply stage_on_readystatechange.
  - apply stage_handleCancel.
  - apply stage_handleRemove.
  - apply stage_handleRestart.
  - apply stage_componentWillUnmount_from.
Qed.

Lemma stage_run_stopped P es w r :
  stage r w = Some Stopped → stage r (run P w es) = Some Stopped.
Proof.
  revert w. induction es as [|e es IH]; intros w H; [done|].
  simpl. by apply IH, stage_step_stopped.
Qed.

Lemma stage_alloc_new c w :
  stage (length (heap w)) (set_heap (heap w ++ [c]) w) = Some (pc c).
Proof. unfold stage; simpl. by rewrite lookup_app_r, Nat.sub_diag. Qed.

Lemma reachable_refs_valid P es r :
  r ∈ _files (run P init es) → r < length (heap (run P init es)).
Proof.
  intros Hr. destruct (in_insertion_order_run P es init) as [_ Hb]; [split; constructor|].
  by eapply Forall_forall in Hb.
Qed.



(** The placeholder type of old Firefox drag events passes the type
    check whatever the accept predicate says: with room in the
    collection such a file is retained. *)
Theorem moz_placeholder_passes_the_type_check P file now w :
  f_type file = "application/x-moz-file" →
  rejected_max_files P w = false →
  rejected_file_type P file = false
  ∧ _files (handleFile P file now w) = (_files w ++ [length (heap w)])%list.
Proof.
  intros Hty Hroom.
  assert (rejected_file_type P file = false) as E
    by (unfold rejected_file_type; by rewrite Hty).
  split; [done|].
  apply (handleFile_retained P w file now). unfold rejected. by rewrite E, Hroom.
Qed.

Lemma moz_placeholder_passes_the_type_check_witness :
  let file := {| f_name := "drag"; f_size := 5; f_type := "application/x-moz-file";
                 f_lastModified := 0 |} in
  accepts Scenario.picky file = false
  ∧ rejected_file_type Scenario.picky file = false
  ∧ _files (handleFile Scenario.picky file 1 init) = [0].
Proof.
  intros file. split; [reflexivity|].
  apply (moz_placeholder_passes_the_type_check Scenario.picky file 1 init); reflexivity.
Defined.

(** ** Uploads are started by the trigger and by restart only *)

Lemma fst_uploads_mark (l : list (nat * bool)) k r b :
  l !! k = Some (r, b) → (<[k := (r, false)]> l).*1 = l.*1.
Proof.
  intros H. rewrite list_fmap_insert. simpl. apply list_insert_id.
  by rewrite list_lookup_fmap, H.
Qed.

Lemma uploads_handleChangeStatus P r w : uploads (handleChangeStatus P r w) = uploads w.
Proof. unfold handleChangeStatus. repeat case_match; done. Qed.

Lemma uploads_componentWillUnmount_from l w :
  uploads (componentWillUnmount_from l w) = uploads w.
Proof.
  revert w. induction l as [|f l IH]; intros w; simpl; [done|].
  repeat case_match; try done. by rewrite IH.
Qed.

Lemma uploads_triggerUpload P r w :
  (uploads (triggerUpload P r w)).*1 = (uploads w).*1
  ∨ stage r w = Some (Gate false) ∧ is_Some (get r w)
    ∧ (uploads (triggerUpload P r w)).*1 = ((uploads w).*1 ++ [r])%list.
Proof.
  unfold triggerUpload.
  destruct (stage r w) as [[| | |[]]|] eqn:E; try (by left).
  unfold uploadFile. rewrite get_set_stage. cbn [uploads forceUpdate].
  destruct (getUploadParams P); [|left; by rewrite uploads_handleChangeStatus].
  destruct (get r w) as [o|] eqn:G; [|left; by rewrite uploads_handleChangeStatus].
  right. split; [done|]. split; [eauto|].
  rewrite uploads_handleChangeStatus. simpl. by rewrite fmap_app.
Qed.

(** The activations after a task are those before it and at most one
    more, started by restart or by a trigger that had not fired. *)
Lemma uploads_step P w e :
  (uploads (step P w e)).*1 = (uploads w).*1
  ∨ ∃ r, (uploads (step P w e)).*1 = ((uploads w).*1 ++ [r])%list
         ∧ is_Some (get r w)
         ∧ (e = Restart r ∨ stage r w = Some AwaitPreview ∨ stage r w = Some (Gate false)).
Proof.
  destruct e; simpl.
  - left. unfold_handlers. repeat case_match; done.
  - left. unfold_handlers. repeat case_match; done.
  - by left.
  - unfold handleFile_resume.
    destruct (stage r w) as [[| | |]|] eqn:E; try (by left).
    assert (is_Some (get r w)) as G by (rewrite is_Some_get_stage, E; eauto).
    destruct (onUploadReady P) as [hook|].
    + destruct (get r (upd r with_triggerUpload (set_stage r (Gate false) w)))
        as [o|] eqn:G1; [|by left].
      destruct (hook o); [by left|].
      destruct (uploads_triggerUpload P r
                  (emit (UploadReady r o)
                     (upd r with_triggerUpload (set_stage r (Gate false) w))))
        as [?|(_ & _ & ?)]; [by left|].
      right. exists r. eauto.
    + destruct (uploads_triggerUpload P r (set_stage r (Gate false) w)) as [?|(_ & _ & ?)];
        [by left|].
      right. exists r. eauto.
  - destruct (get r w) as [o|] eqn:G; [|by left].
    destruct (fw_triggerUpload o); [|by left].
    destruct (uploads_triggerUpload P r w) as [?|(? & ? & ?)]; [by left|].
    right. exists r. eauto.
  - left. unfold uploadFile_resume.
    destruct (uploads w !! k) as [[r []]|] eqn:Hk; try done. cbv zeta.
    assert ((<[k:=(r, false)]> (uploads w)).*1 = (uploads w).*1) as Hm
      by (by eapply fst_uploads_mark).
    repeat case_match; simpl; rewrite ?uploads_handleChangeStatus; done.
  - left. destruct (uploads w !! k) as [[r []]|] eqn:Hk; try done. simpl.
    by eapply fst_uploads_mark.
  - left. unfold on_progress. repeat case_match; done.
  - left. unfold on_readystatechange.
    repeat case_match; simpl; rewrite ?uploads_handleChangeStatus; done.
  - left. unfold handleCancel. repeat case_match; done.
  - left. unfold handleRemove. repeat case_match; done.
  - unfold handleRestart, uploadFile.
    destruct (getUploadParams P), (get r w) as [o|] eqn:G, (onRestart P); simpl;
      rewrite uploads_handleChangeStatus; simpl; try (by left);
      right; exists r; rewrite fmap_app; eauto.
  - left. unfold componentWillUnmount. by rewrite uploads_componentWillUnmount_from.
Qed.

Lemma activations_step_stopped P w e r :
  stage r w = Some Stopped → e ≠ Restart r →
  activations r (step P w e) = activations r w.
Proof.
  intros Hs He. unfold activations.
  destruct (uploads_step P w e) as [->|(r' & -> & _ & H)]; [done|].
  rewrite filter_app, length_app.
  assert (r' ≠ r) as Hne.
  { intros ->. destruct H as [->|[H|H]]; [done|..]; rewrite Hs in H; done. }
  rewrite filter_cons_False by done. simpl. lia.
Qed.

Lemma activations_run_stopped P es w r :
  stage r w = Some Stopped → Forall (λ e, e ≠ Restart r) es →
  activations r (run P w es) = activations r w.
Proof.
  intros Hs Hes. revert w Hs. induction Hes as [|e es He _ IH]; intros w Hs; [done|].
  simpl. rewrite IH by (by apply stage_step_stopped). by apply activations_step_stopped.
Qed.

Lemma uploads_valid_step P w e : uploads_valid w → uploads_valid (step P w e).
Proof.
  intros H r Hr. pose proof (length_heap_step P w e) as L.
  assert (length (heap w) ≤ length (heap (step P w e))) by (destruct e; lia).
  destruct (uploads_step P w e) as [E|(r' & E & G & _)]; rewrite E in Hr.
  - apply H in Hr. lia.
  - apply elem_of_app in Hr as [Hr|Hr]; [apply H in Hr; lia|].
    apply list_elem_of_singleton in Hr as ->.
    unfold get in G. apply fmap_is_Some, lookup_lt_is_Some in G. lia.
Qed.

Lemma uploads_valid_run P es : uploads_valid (run P init es).
Proof.
  assert (∀ w, uploads_valid w → uploads_valid (run P w es)) as H.
  { induction es as [|e es IH]; intros w Hw; [done|]. simpl. by apply IH, uploads_valid_step. }
  apply H. intros r Hr. simpl in Hr. by apply elem_of_nil in Hr.
Qed.

Lemma stage_new_after P r s c w :
  r = length (heap w) →
  stage r (handleChangeStatus P r (set_status r s (set_heap (heap w ++ [c]) w))) = Some (pc c).
Proof. intros ->. autorewrite with store. apply stage_alloc_new. Qed.



(** ** Accepting several files *)

Lemma handleFiles_run P files w :
  handleFiles P files w = run P w (map (λ fn, Accept fn.1 fn.2) files).
Proof.
  revert w. induction files as [|fn files IH]; intros w; [done|]. simpl. apply IH.
Qed.

Lemma files_handleFile P file now w :
  _files (handleFile P file now w)
  = if rejected P w file then _files w else (_files w ++ [length (heap w)])%list.
Proof.
  pose proof (files_step_exact P w (Accept file now)) as H.
  unfold files_after in H. simpl in H. by destruct (rejected P w file).
Qed.

(** [handleFiles] fills the collection up to [maxFiles] and no further:
    of the files that pass the type check, as many are retained as
    there is room for, in the order given, behind the records that
    were there; a file that fails the size check takes up a place like
    any other.  The counter [id] moves by the number retained. *)
Theorem handleFiles_fills_up_to_maxFiles P files w :
  within_capacity P w →
  let passing := filter (λ fn, rejected_file_type P fn.1 = false) files in
  let w' := handleFiles P files w in
  length (_files w')
  = Nat.min (length (_files w) + length passing) (N.to_nat (maxFiles P))
  ∧ _files w `prefix_of` _files w'
  ∧ id w' = id w + (length (_files w') - length (_files w)).
Proof.
  revert w. induction files as [|[file now] files IH]; intros w Hcap passing w'.
  - subst passing w'. simpl. unfold within_capacity in Hcap.
    split; [lia|]. split; [done | lia].
  - subst passing w'. simpl handleFiles.
    change (foldl _ ?a files) with (handleFiles P files a).
    pose proof (within_capacity_step P w (Accept file now) Hcap) as Hcap'. simpl in Hcap'.
    destruct (IH (handleFile P file now w) Hcap') as (L & Pf & I). clear IH.
    pose proof (files_handleFile P file now w) as F.
    pose proof (id_step P w (Accept file now)) as Hid. simpl in Hid.
    unfold within_capacity in Hcap, Hcap'.
    unfold rejected, rejected_max_files in *.
    destruct (rejected_file_type P file) eqn:E1.
    + rewrite filter_cons_False by (simpl; by rewrite E1).
      simpl in F, Hid. rewrite F in L, Pf, I. rewrite Hid in I. done.
    + rewrite filter_cons_True by (simpl; by rewrite E1).
      simpl in F, Hid. simpl length.
      destruct (N.leb_spec (maxFiles P) (N.of_nat (length (_files w)))) as [Hfull|Hroom];
        simpl in F, Hid.
      * rewrite F in L, Pf, I. rewrite Hid in I. split; [lia|]. done.
      * rewrite F in L, Pf, I. rewrite Hid in I. rewrite length_app in L, I.
        simpl in L, I.
        pose proof (prefix_length _ _ Pf) as Hl. rewrite length_app in Hl. simpl in Hl.
        split; [lia|]. split; [|lia].
        etrans; [|done]. by apply prefix_app_r.
Qed.

Lemma handleFiles_fills_up_to_maxFiles_witness :
  let P := Scenario.uploading in
  let files := [(Scenario.a_txt, 1%N); (Scenario.b_txt, 2%N); (Scenario.a_png, 3%N)] in
  let passing := filter (λ fn, rejected_file_type P fn.1 = false) files in
  let w' := handleFiles P files init in
  length (_files w') = Nat.min (0 + length passing) (N.to_nat (maxFiles P))
  ∧ _files init `prefix_of` _files w'
  ∧ id w' = 0 + (length (_files w') - 0).
Proof.
  intros P files.
  apply (handleFiles_fills_up_to_maxFiles P files init).
  unfold within_capacity. simpl. lia.
Defined.

(** ** The ready gate *)

Lemma stage_triggerUpload_fired P r w :
  stage r w = Some (Gate false) → stage r (triggerUpload P r w) = Some (Gate true).
Proof.
  intros E. unfold triggerUpload. rewrite E.
  destruct (getUploadParams P); autorewrite with store;
    rewrite stage_set_stage, decide_True by done; by rewrite E.
Qed.

Lemma meta_of_status_triggerUpload P r w :
  stage r w = Some (Gate false) →
  meta_of r "status" (triggerUpload P r w)
  = VStr (if getUploadParams P then "uploading" else "done").
Proof.
  intros E. unfold triggerUpload. rewrite E.
  assert (is_Some (get r w)) as G by (rewrite is_Some_get_stage, E; eauto).
  destruct (getUploadParams P); autorewrite with store;
    rewrite meta_of_status_handleChangeStatus; apply meta_of_set_status_eq;
    autorewrite with store; done.
Qed.



(** ** Object URLs *)

Lemma lookup_snoc_true (l : list bool) u :
  (l ++ [true])%list !! u = Some true → l !! u = Some true ∨ u = length l.
Proof.
  intros [H|[Hge H]]%lookup_app_Some; [by left|]. right.
  apply list_lookup_singleton_Some in H as [H _]. lia.
Qed.

Lemma lookup_revoked_true (l : list bool) n u :
  <[n := false]> l !! u = Some true → l !! u = Some true ∧ u ≠ n.
Proof.
  intros H. destruct (decide (u = n)) as [->|Hne].
  - apply list_lookup_insert_Some in H as [(_ & ? & _)|[? _]]; done.
  - by rewrite list_lookup_insert_ne in H.
Qed.

Lemma stage_set_stage_eq r s w :
  is_Some (stage r w) → stage r (set_stage r s w) = Some s.
Proof. intros [s0 E]. by rewrite stage_set_stage, decide_True, E. Qed.

Lemma urls_generatePreview_end r u0 w u :
  urls (generatePreview_end r u0 w) !! u = Some true → urls w !! u = Some true ∧ u ≠ u0.
Proof. unfold generatePreview_end. simpl. apply lookup_revoked_true. Qed.

(** After its first [await] and after each later one, [generatePreview]
    either waits on an element whose [src] is the same URL, or has
    revoked that URL. *)
Lemma urls_generatePreview_video P r u0 ty w u :
  is_Some (stage r w) →
  urls (generatePreview_video P r u0 ty w) !! u = Some true →
  urls w !! u = Some true
  ∧ (u = u0 → ∃ k, stage r (generatePreview_video P r u0 ty w) = Some (AwaitDecode k u0 ty)).
Proof.
  intros S. unfold generatePreview_video. destruct (_ && _) eqn:C.
  - simpl. intros Hu. split; [done|]. intros _. exists Video. by apply stage_set_stage_eq.
  - intros [H Hne]%urls_generatePreview_end. done.
Qed.

Lemma urls_generatePreview_audio P r u0 ty w u :
  is_Some (stage r w) →
  urls (generatePreview_audio P r u0 ty w) !! u = Some true →
  urls w !! u = Some true
  ∧ (u = u0 → ∃ k, stage r (generatePreview_audio P r u0 ty w) = Some (AwaitDecode k u0 ty)).
Proof.
  intros S. unfold generatePreview_audio. destruct (_ && _) eqn:C.
  - simpl. intros Hu. split; [done|]. intros _. exists Audio. by apply stage_set_stage_eq.
  - by apply urls_generatePreview_video.
Qed.

Lemma urls_generatePreview_image P r u0 ty w u :
  is_Some (stage r w) →
  urls (generatePreview_image P r u0 ty w) !! u = Some true →
  urls w !! u = Some true
  ∧ (u = u0 → ∃ k, stage r (generatePreview_image P r u0 ty w) = Some (AwaitDecode k u0 ty)).
Proof.
  intros S. unfold generatePreview_image. destruct (_ && _) eqn:C.
  - simpl. intros Hu. split; [done|]. intros _. exists Image.
    apply stage_set_stage_eq. by rewrite stage_assign.
  - by apply urls_generatePreview_audio.
Qed.

Lemma urls_generatePreview P r w u :
  is_Some (stage r w) →
  urls (generatePreview P r w) !! u = Some true →
  urls w !! u = Some true
  ∨ ∃ k ty, stage r (generatePreview P r w) = Some (AwaitDecode k u ty).
Proof.
  intros S. unfold generatePreview.
  destruct (meta_of r "type" w) as [| |ty| |]; try (by left).
  destruct (_ && _) eqn:C; [by left|].
  intros [H Hst]%urls_generatePreview_image; [|done].
  simpl in H. apply lookup_snoc_true in H as [H| ->]; [by left|].
  right. destruct Hst as [k Hk]; [done|]. eauto.
Qed.

Lemma urls_handleChangeStatus P r w : urls (handleChangeStatus P r w) = urls w.
Proof. unfold handleChangeStatus. repeat case_match; done. Qed.

Lemma urls_handleFile P file now w u :
  urls (handleFile P file now w) !! u = Some true →
  urls w !! u = Some true
  ∨ ∃ k ty, stage (length (heap w)) (handleFile P file now w) = Some (AwaitDecode k u ty).
Proof.
  unfold handleFile.
  destruct (rejected_file_type P file).
  { rewrite urls_handleChangeStatus. by left. }
  destruct (rejected_max_files P _).
  { rewrite urls_handleChangeStatus. by left. }
  cbv zeta. destruct (_ || _).
  { cbn [urls forceUpdate]. rewrite urls_handleChangeStatus. cbn [urls set_status assign upd
      set_heap set_id forceUpdate]. rewrite urls_handleChangeStatus. by left. }
  intros Hu. apply urls_generatePreview in Hu as [Hu|Hu].
  - left. revert Hu. cbn [urls set_id forceUpdate]. by rewrite urls_handleChangeStatus.
  - by right.
  - autorewrite with store. rewrite stage_alloc_new. eauto.
Qed.

Lemma urls_on_decoded P r d w u :
  urls (on_decoded P r d w) !! u = Some true →
  urls w !! u = Some true
  ∧ (∀ k ty, stage r w = Some (AwaitDecode k u ty) →
       ∃ k', stage r (on_decoded P r d w) = Some (AwaitDecode k' u ty)).
Proof.
  unfold on_decoded.
  destruct (stage r w) as [[|k u0 ty| |]|] eqn:E; try (intros H; split; [done|]; by intros).
  assert (∀ w1, stage r w1 = stage r w → is_Some (stage r w1)) as Hs
    by (intros w1 ->; rewrite E; eauto).
  destruct k.
  - intros [H Hst]%urls_generatePreview_audio; [|apply Hs; by autorewrite with store].
    split; [done|]. intros k ty' [= _ <- <-]. by apply Hst.
  - intros [H Hst]%urls_generatePreview_video; [|apply Hs; by autorewrite with store].
    split; [done|]. intros k ty' [= _ <- <-]. by apply Hst.
  - intros [H Hne]%urls_generatePreview_end.
    split; [done|]. intros k ty' [= _ <- <-]. done.
Qed.

Lemma urls_componentWillUnmount_from l w : urls (componentWillUnmount_from l w) = urls w.
Proof.
  revert w. induction l as [|f l IH]; intros w; simpl; [done|].
  repeat case_match; try done. by rewrite IH.
Qed.

Lemma urls_accounted_step P w e : urls_accounted w → urls_accounted (step P w e).
Proof.
  intros Hacc u Hu.
  assert (urls (step P w e) = urls w → (∀ r d, e ≠ DecodeLoaded r d) →
          ∃ r k ty, stage r (step P w e) = Some (AwaitDecode k u ty)) as Same.
  { intros E He. rewrite E in Hu. destruct (Hacc u Hu) as (r & k & ty & Hr).
    exists r, k, ty. apply stage_step_awaiting; [done|]. intros d. apply He. }
  destruct e; simpl in *;
    try (apply Same; [unfold_handlers; repeat case_match; done | done]).
  - apply urls_handleFile in Hu as [Hu|(k & ty & Hk)]; [|eauto].
    destruct (Hacc u Hu) as (r & k & ty & Hr). exists r, k, ty.
    rewrite stage_handleFile; [done|]. rewrite Hr. eauto.
  - apply urls_on_decoded in Hu as [Hu Hst].
    destruct (Hacc u Hu) as (r0 & k & ty & Hr).
    destruct (decide (r0 = r)) as [->|Hne].
    + destruct (Hst k ty Hr) as [k' Hk']. eauto.
    + exists r0, k, ty. by rewrite stage_on_decoded.
  - apply Same; [|done]. unfold componentWillUnmount. apply urls_componentWillUnmount_from.
Qed.

(** An object URL stays unrevoked only while the element it was made
    for is being waited on: in every reachable world each live URL is
    the [src] of a pending decode of some record.  So whenever
    [generatePreview] runs to its end, or finds the kind disabled, the
    URL it made has been revoked. *)
Theorem live_urls_belong_to_pending_decodes P es u :
  urls (run P init es) !! u = Some true →
  ∃ r k ty, stage r (run P init es) = Some (AwaitDecode k u ty).
Proof.
  assert (∀ w, urls_accounted w → urls_accounted (run P w es)) as H.
  { induction es as [|e es IH]; intros w Hw; [done|]. simpl. by apply IH, urls_accounted_step. }
  apply H. intros u' Hu'. done.
Qed.

Lemma live_urls_belong_to_pending_decodes_witness :
  let P := Scenario.uploading in
  let es := [Accept Scenario.a_txt 1; Accept Scenario.a_png 2] in
  urls (run P init es) = [true]
  ∧ ∃ r k ty, stage r (run P init es) = Some (AwaitDecode k 0 ty).
Proof.
  intros P es.
  assert (urls (run P init es) = [true]) as E by (vm_compute; reflexivity).
  split; [done|].
  apply (live_urls_belong_to_pending_decodes P es 0). by rewrite E.
Defined.

(** ** The values of [meta.status] *)

Lemma status_owned_refl w : status_owned w w.
Proof. intros r o G. right. eauto. Qed.

Lemma status_owned_same_heap w w' w'' :
  heap w'' = heap w' → status_owned w w' → status_owned w w''.
Proof. intros E H r o G. apply H. unfold get in *. by rewrite <- E. Qed.

Lemma status_owned_upd w r f w' :
  (∀ o, prop "status" (f o) = prop "status" o) →
  status_owned w w' → status_owned w (upd r f w').
Proof.
  intros Hf H r' o' G. rewrite get_upd in G. case_decide as E.
  - subst. destruct (get r w') as [o1|] eqn:G1; [|done]. simpl in G. simplify_eq.
    destruct (H r o1 G1) as [(s & Hs & E)|(o & G0 & E)].
    + left. exists s. by rewrite Hf.
    + right. exists o. by rewrite Hf.
  - by apply H.
Qed.

Lemma status_owned_set_status w r s w' :
  s ∈ statuses → status_owned w w' → status_owned w (set_status r s w').
Proof.
  intros Hs H r' o' G. unfold set_status, assign in G. rewrite get_upd in G.
  case_decide as E; [|by apply H].
  subst. destruct (get r w') as [o1|] eqn:G1; [|done]. simpl in G. simplify_eq.
  left. exists s. split; [done|]. unfold prop; simpl. by rewrite lookup_insert_eq.
Qed.

Lemma status_owned_assign w r k v w' :
  k ≠ "status" → status_owned w w' → status_owned w (assign r k v w').
Proof.
  intros Hk. apply status_owned_upd. intros o. unfold prop; simpl.
  by rewrite lookup_insert_ne.
Qed.

Lemma status_owned_spread w r (m : gmap string jsval) w' :
  status_owned w w' → status_owned w (spread r (delete "status" m) w').
Proof.
  apply status_owned_upd. intros o. unfold prop; simpl.
  by rewrite lookup_union_r by apply lookup_delete_eq.
Qed.

Lemma status_owned_set_stage w r s w' :
  status_owned w w' → status_owned w (set_stage r s w').
Proof. intros H r' o' G. rewrite get_set_stage in G. by apply H. Qed.

Lemma status_owned_alloc w r s c w' :
  r = length (heap w') → s ∈ statuses →
  status_owned w w' → status_owned w (set_status r s (set_heap (heap w' ++ [c]) w')).
Proof.
  intros -> Hs H r' o' G. unfold set_status, assign in G. rewrite get_upd in G.
  case_decide as E.
  - subst. rewrite get_alloc_new in G. simpl in G. simplify_eq.
    left. exists s. split; [done|]. unfold prop; simpl. by rewrite lookup_insert_eq.
  - apply H. unfold get in *. simpl in G.
    destruct (decide (r' < length (heap w'))).
    + by rewrite lookup_app_l in G.
    + rewrite lookup_app_r in G by lia.
      destruct (r' - length (heap w')) as [|n'] eqn:En; [lia|]. done.
Qed.

Ltac in_statuses := unfold statuses; repeat first [apply list_elem_of_here | apply list_elem_of_further].

Ltac status_owned_head :=
  lazymatch goal with
  | |- status_owned ?w ?w => apply status_owned_refl
  | |- status_owned _ (emit _ ?x) => apply (status_owned_same_heap _ x); [reflexivity|]
  | |- status_owned _ (forceUpdate ?x) => apply (status_owned_same_heap _ x); [reflexivity|]
  | |- status_owned _ (set_id _ ?x) => apply (status_owned_same_heap _ x); [reflexivity|]
  | |- status_owned _ (set_files _ ?x) => apply (status_owned_same_heap _ x); [reflexivity|]
  | |- status_owned _ (set_uploads _ ?x) => apply (status_owned_same_heap _ x); [reflexivity|]
  | |- status_owned _ (set_xhrs _ ?x) => apply (status_owned_same_heap _ x); [reflexivity|]
  | |- status_owned _ (set_urls _ ?x) => apply (status_owned_same_heap _ x); [reflexivity|]
  | |- status_owned _ (abort _ ?x) => apply (status_owned_same_heap _ x); [reflexivity|]
  | |- status_owned _ (createObjectURL ?x) => apply (status_owned_same_heap _ x); [reflexivity|]
  | |- status_owned _ (revokeObjectURL _ ?x) => apply (status_owned_same_heap _ x); [reflexivity|]
  | |- status_owned _ (set_status _ _ (set_heap (heap _ ++ _) _)) =>
      apply status_owned_alloc; [reflexivity | in_statuses |]
  | |- status_owned _ (set_status _ _ _) => apply status_owned_set_status; [in_statuses|]
  | |- status_owned _ (assign _ _ _ _) => apply status_owned_assign; [done|]
  | |- status_owned _ (spread _ (delete "status" _) _) => apply status_owned_spread
  | |- status_owned _ (set_stage _ _ _) => apply status_owned_set_stage
  | |- status_owned _ (upd _ with_triggerUpload _) => apply status_owned_upd; [done|]
  | |- status_owned _ (upd _ (with_xhr _) _) => apply status_owned_upd; [done|]
  end.

Lemma status_owned_handleChangeStatus P w r w' :
  status_owned w w' → status_owned w (handleChangeStatus P r w').
Proof.
  intros H. unfold handleChangeStatus. repeat case_match; repeat status_owned_head; done.
Qed.

Lemma status_owned_uploadFile P w r w' :
  status_owned w w' → status_owned w (uploadFile P r w').
Proof.
  intros H. unfold uploadFile. repeat case_match; repeat status_owned_head; done.
Qed.

Ltac status_owned :=
  repeat first
    [ status_owned_head
    | lazymatch goal with
      | |- status_owned _ (handleChangeStatus _ _ _) => apply status_owned_handleChangeStatus
      | |- status_owned _ (uploadFile _ _ _) => apply status_owned_uploadFile
      end ].

Lemma status_owned_componentWillUnmount_from w l w' :
  status_owned w w' → status_owned w (componentWillUnmount_from l w').
Proof.
  revert w'. induction l as [|f l IH]; intros w' H; simpl; [done|].
  repeat case_match; try (apply IH); status_owned; done.
Qed.

Lemma status_owned_step P w e : status_owned w (step P w e).
Proof.
  destruct e; simpl;
    try (unfold handleFile, handleFile_resume, on_decoded, handleRestart, handleCancel,
           handleRemove, on_progress, on_readystatechange, uploadFile_resume,
           generatePreview, triggerUpload, generatePreview_image, generatePreview_audio,
           generatePreview_video, generatePreview_end;
         repeat case_match; status_owned; done).
  apply status_owned_componentWillUnmount_from, status_owned_refl.
Qed.



(** ** The drag handlers *)

Lemma drag_run_app P c es es' :
  drag_run P c (es ++ es') = drag_run P (drag_run P c es) es'.
Proof. apply foldl_app. Qed.

Lemma timeout_no_timer k d :
  Forall (λ b, b = false) (timers d) → timeout k d = d.
Proof.
  intros H. unfold timeout. destruct (timers d !! k) as [[]|] eqn:E; try done.
  by apply (Forall_lookup_1 _ _ _ _ H) in E.
Qed.

Lemma timers_leave_over d :
  Forall (λ b, b = false) (timers d) →
  Forall (λ b, b = false) (timers (handleDragOver (handleDragLeave d))).
Proof.
  intros H. simpl.
  rewrite insert_app_r_alt, Nat.sub_diag by lia. simpl.
  apply Forall_app. split; [done|]. by repeat constructor.
Qed.

Lemma timers_over d :
  Forall (λ b, b = false) (timers d) →
  Forall (λ b, b = false) (timers (handleDragOver d)).
Proof.
  intros H. simpl. destruct (_dragTimeoutId d) as [k|]; simpl; [|done].
  by apply Forall_insert.
Qed.

Lemma debounced_run P n : ∀ es c,
  length es ≤ n →
  debounced es = true →
  forallb (λ e, negb (is_drop e)) es = true →
  Forall (λ b, b = false) (timers c.1) →
  Forall (λ b, b = false) (timers (drag_run P c es).1)
  ∧ (active c.1 || existsb is_hover es = true → active (drag_run P c es).1 = true).
Proof.
  induction n as [|n IH]; intros es c Hn D ND T.
  { destruct es; [|simpl in Hn; lia]. simpl. split; [done|]. by rewrite orb_false_r. }
  destruct es as [|e es]; [simpl; split; [done|]; by rewrite orb_false_r|].
  simpl in Hn. destruct e; simpl in D, ND |- *; try done.
  - destruct (IH es (handleDragEnter c.1, c.2)) as [T' A]; [lia|done|done|done|].
    split; [done|]. intros _. apply A. done.
  - destruct (IH es (handleDragOver c.1, c.2)) as [T' A];
      [lia|done|done|by apply timers_over|].
    split; [done|]. intros _. apply A. done.
  - destruct es as [|[] es]; try done. simpl in Hn, ND |- *.
    destruct (IH es (handleDragOver (handleDragLeave c.1), c.2)) as [T' A];
      [lia|done|done|by apply timers_leave_over|].
    split; [done|]. intros _. apply A. done.
  - rewrite timeout_no_timer by done.
    destruct (IH es (c.1, c.2)) as [T' A]; [lia|done|done|done|].
    split; [done|]. intros Ha. apply A. simpl in Ha |- *. done.
  - destruct (IH es (c.1, step P c.2 e)) as [T' A]; [lia|done|done|done|].
    split; [done|]. intros Ha. apply A. simpl in Ha |- *. done.
Qed.

(** While every [dragleave] is followed at once by a [dragover] and
    nothing is dropped, the dropzone that a [dragenter] or [dragover]
    made active stays active: no timer is left that could switch it
    off, whenever the timers fire and whatever the upload pipeline does
    in between. *)
Theorem leave_then_over_keeps_the_dropzone_active P es :
  debounced es = true →
  forallb (λ e, negb (is_drop e)) es = true →
  existsb is_hover es = true →
  active (drag_run P (drag_init, init) es).1 = true
  ∧ Forall (λ b, b = false) (timers (drag_run P (drag_init, init) es).1).
Proof.
  intros D ND H.
  destruct (debounced_run P (length es) es (drag_init, init)) as [T A];
    [done|done|done|by constructor|].
  split; [|done]. apply A. simpl. done.
Qed.

Lemma leave_then_over_keeps_the_dropzone_active_witness :
  let es := [DragEnter; DragLeave; DragOver; Timeout 0; Other (Accept Scenario.a_txt 1);
             DragLeave; DragOver; Timeout 1] in
  active (drag_run Scenario.plain (drag_init, init) es).1 = true
  ∧ Forall (λ b, b = false) (timers (drag_run Scenario.plain (drag_init, init) es).1).
Proof.
  intros es.
  apply (leave_then_over_keeps_the_dropzone_active Scenario.plain es); reflexivity.
Defined.

Lemma lookup_timer_kept k (ts : list bool) j :
  j ≠ Some k → clearTimeout j ts !! k = ts !! k.
Proof.
  intros H. destruct j as [j|]; simpl; [|done].
  apply list_lookup_insert_ne. congruence.
Qed.

(** [handleDragLeave] overwrites [_dragTimeoutId] without clearing the
    timer it named, and [handleDragEnter] clears nothing.  After two
    [dragleave]s in a row the first timer is out of reach: through any
    number of [dragenter] and [dragover] events it stays pending, and
    when it fires the dropzone turns inactive although the pointer is
    over it. *)
Theorem second_leave_orphans_the_first_timer P d w es :
  forallb is_hover es = true →
  let k := length (timers d) in
  let c := drag_run P (d, w) (DragLeave :: DragLeave :: es) in
  timers c.1 !! k = Some true
  ∧ active (drag_run P c [Timeout k]).1 = false.
Proof.
  intros H k c.
  assert (timers c.1 !! k = Some true) as T.
  { subst c. simpl.
    assert (∀ es c0, forallb is_hover es = true →
              _dragTimeoutId c0.1 ≠ Some k → timers c0.1 !! k = Some true →
              timers (drag_run P c0 es).1 !! k = Some true) as G.
    { clear. induction es as [|e es IH]; intros c0 H Hk T; [done|].
      simpl in H. apply andb_prop in H as [He H]. simpl.
      destruct e; try done; apply IH; simpl; try done.
      by rewrite lookup_timer_kept. }
    apply G; [done| |].
    - simpl. rewrite length_app. simpl. subst k. intros [= E]. lia.
    - simpl. subst k. rewrite lookup_app_l by (rewrite length_app; simpl; lia).
      by rewrite list_lookup_middle. }
  split; [done|]. simpl. unfold timeout. by rewrite T.
Qed.

Lemma second_leave_orphans_the_first_timer_witness :
  let c := drag_run Scenario.plain (drag_init, init)
             [DragLeave; DragLeave; DragOver; DragEnter; DragOver] in
  timers c.1 !! 0 = Some true
  ∧ active (drag_run Scenario.plain c [Timeout 0]).1 = false.
Proof.
  apply (second_leave_orphans_the_first_timer Scenario.plain drag_init init
           [DragOver; DragEnter; DragOver]).
  reflexivity.
Defined.

(** A [dragover] after a [dragleave] cancels the pending deactivation;
    a [dragenter] does not: the timer set by the [dragleave] fires and
    switches the dropzone off. *)
Theorem dragover_cancels_the_timer_dragenter_does_not P d w :
  let k := length (timers d) in
  active (drag_run P (d, w) [DragLeave; DragOver; Timeout k]).1 = true
  ∧ active (drag_run P (d, w) [DragLeave; DragEnter; Timeout k]).1 = false.
Proof.
  intros k. simpl. unfold timeout. simpl. subst k.
  rewrite insert_app_r_alt, Nat.sub_diag by lia. simpl.
  rewrite !list_lookup_middle by done. done.
Qed.
